(** * cloudflare-ip-checker: the reconciliation tick of [src/index.ts]

    A shallow embedding of the dynamic-DNS synchroniser.  The program is a
    sequence of awaited HTTP calls and console writes; it is embedded as a
    state-passing computation over an abstract network that also records, in
    program order, every request issued and every console line written. *)

From Stdlib Require Import String Ascii List ZArith Bool Arith Lia.
From Stdlib Require Import Permutation DecimalString DecimalPos DecimalZ.
Import ListNotations.

Local Open Scope string_scope.
Local Open Scope list_scope.

(** Template literals and [+] on strings. *)
Infix "+++" := String.append (right associativity, at level 60).

(** The line feed of the ['\n'] escapes. *)
Definition nl : string := String (ascii_of_nat 10) EmptyString.

(** The double quote inside a string literal. *)
Definition dq : string := String (ascii_of_nat 34) EmptyString.

(* ------------------------------------------------------------------ *)
(** ** JavaScript values the program handles *)

(** A [number], as far as this program computes with one: the result of
    [parseInt] and its products with integer constants.  Rounding to a
    double beyond 2^53 is not represented. *)
Inductive number : Type :=
| NaN
| Num (z : Z).

Definition number_mul (a b : number) : number :=
  match a, b with
  | Num x, Num y => Num (x * y)
  | _, _ => NaN
  end.

(** [String(n)] / template interpolation of a number. *)
Definition Number_toString (n : number) : string :=
  match n with
  | NaN => "NaN"
  | Num z => NilZero.string_of_int (Z.to_int z)
  end.

Definition Nat_toString (n : nat) : string :=
  NilZero.string_of_uint (Nat.to_uint n).

(** A thrown value: an [Error] object with its [name] and [message]. *)
Record JsError : Type := { err_name : string; err_message : string }.

(** [new Error(msg)]. *)
Definition Error (msg : string) : JsError :=
  {| err_name := "Error"; err_message := msg |}.

(** [Error.prototype.toString], used by [`${error}`]. *)
Definition toString (e : JsError) : string :=
  if (err_message e =? EmptyString)%string then err_name e
  else if (err_name e =? EmptyString)%string then err_message e
  else err_name e +++ ": " +++ err_message e.

(** [Array.prototype.includes] on an array of strings (SameValueZero is
    string equality there). *)
Fixpoint includes (xs : list string) (x : string) : bool :=
  match xs with
  | [] => false
  | y :: ys => if (y =? x)%string then true else includes ys x
  end.

(** [Array.prototype.join]. *)
Definition join (sep : string) (xs : list string) : string :=
  String.concat sep xs.

(* ------------------------------------------------------------------ *)
(** ** Data model (index.ts, lines 4-18) *)

Record CloudflareConfig : Type := {
  apiToken : string;
  zoneId : string;
  allowedRecords : list string;
  checkIntervalMinutes : number
}.

Record DNSRecord : Type := {
  id : string;
  name : string;
  type : string;
  content : string;
  proxied : bool;
  ttl : Z
}.

(** The object literal serialised as the PUT body (lines 126-132), fields in
    the order they are written there. *)
Record PutBody : Type := {
  body_type : string;
  body_name : string;
  body_content : string;
  body_ttl : Z;
  body_proxied : bool
}.

Inductive Method : Type := GET | PUT.

(** What [fetch] is called with: the URL and the [init] object. *)
Record Request : Type := {
  url : string;
  method : Method;
  headers : list (string * string);
  body : option PutBody
}.

(** The JSON bodies, at the types the source asserts with [as]. *)
Record IpifyBody : Type := { ip : string }.

(** [{ success, result, errors }]; [errors] is kept as the text
    [JSON.stringify(data.errors)] yields.  The PUT answer, which is read as
    [{ success, errors }] only, is an [ApiResponse unit]. *)
Record ApiResponse (T : Type) : Type := {
  success : bool;
  result : T;
  errors : string
}.
Arguments success {T} _.
Arguments result {T} _.
Arguments errors {T} _.

(** An awaited [fetch] followed by [response.json()]: either promise may
    reject, or the body is obtained. *)
Inductive Reply (T : Type) : Type :=
| Rejected (e : JsError)
| Json (data : T).
Arguments Rejected {T} e.
Arguments Json {T} data.

(** The outside world: one handler per [fetch] call site, each answering at
    the type read there and free to change the world. *)
Record Network (W : Type) : Type := {
  ipify : Request -> W -> Reply IpifyBody * W;                       (* line 50 *)
  listing : Request -> W -> Reply (ApiResponse (list DNSRecord)) * W; (* line 62 *)
  detail : Request -> W -> Reply (ApiResponse DNSRecord) * W;         (* line 88 *)
  replace : Request -> W -> Reply (ApiResponse unit) * W              (* line 120 *)
}.
Arguments ipify {W} _.
Arguments listing {W} _.
Arguments detail {W} _.
Arguments replace {W} _.

(* ------------------------------------------------------------------ *)
(** ** Observable events and the computation monad *)

Inductive Event : Type :=
| ConsoleLog (line : string)
| ConsoleError (line : string) (arg : option JsError)
| NextCheckLog (delay : number)   (* line 217: text depends on the clock *)
| Fetch (req : Request)
| SetTimeout (delay : number).

Definition Trace : Type := list Event.

(** How an awaited computation ends: with a value, with an exception, or by
    [process.exit], which no [catch] intercepts. *)
Inductive Outcome (A : Type) : Type :=
| Returned (a : A)
| Thrown (e : JsError)
| Exited (code : Z).
Arguments Returned {A} a.
Arguments Thrown {A} e.
Arguments Exited {A} code.

Definition Prog (W A : Type) : Type := W -> Trace * W * Outcome A.

Section Monad.
Context {W : Type}.

Definition ret {A} (a : A) : Prog W A := fun w => ([], w, Returned a).

Definition bind {A B} (m : Prog W A) (k : A -> Prog W B) : Prog W B :=
  fun w =>
    match m w with
    | (t1, w1, Returned a) =>
        match k a w1 with
        | (t2, w2, o) => (t1 ++ t2, w2, o)
        end
    | (t1, w1, Thrown e) => (t1, w1, Thrown e)
    | (t1, w1, Exited c) => (t1, w1, Exited c)
    end.

Definition throw {A} (e : JsError) : Prog W A := fun w => ([], w, Thrown e).

(** [try { m } catch (error) { h error }]. *)
Definition try_catch {A} (m : Prog W A) (h : JsError -> Prog W A) : Prog W A :=
  fun w =>
    match m w with
    | (t1, w1, Thrown e) =>
        match h e w1 with
        | (t2, w2, o) => (t1 ++ t2, w2, o)
        end
    | r => r
    end.

Definition emit (ev : Event) : Prog W unit := fun w => ([ev], w, Returned tt).

Definition console_log (line : string) : Prog W unit := emit (ConsoleLog line).

Definition console_error (line : string) (arg : option JsError) : Prog W unit :=
  emit (ConsoleError line arg).

Definition process_exit {A} (code : Z) : Prog W A := fun w => ([], w, Exited code).

(** [await fetch(...)] then [await response.json()] against a handler. *)
Definition fetch_json {T} (h : Request -> W -> Reply T * W) (req : Request)
  : Prog W T :=
  fun w =>
    match h req w with
    | (Rejected e, w') => ([Fetch req], w', Thrown e)
    | (Json data, w') => ([Fetch req], w', Returned data)
    end.

(** [await new Promise(resolve => setTimeout(resolve, delay))]. *)
Definition sleep (delay : number) : Prog W unit := emit (SetTimeout delay).

(** [for (const x of xs) { body x }]. *)
Fixpoint forOf {A} (xs : list A) (body : A -> Prog W unit) : Prog W unit :=
  match xs with
  | [] => ret tt
  | x :: rest => bind (body x) (fun _ => forOf rest body)
  end.
End Monad.

Notation "x <- m ;; k" := (bind m (fun x => k))
  (at level 61, m at next level, right associativity).
Notation "m ;; k" := (bind m (fun _ => k))
  (at level 61, right associativity).

(* ------------------------------------------------------------------ *)
(** ** The program (index.ts, lines 47-203) *)

Definition authHeaders (config : CloudflareConfig) : list (string * string) :=
  [ ("Authorization", "Bearer " +++ apiToken config);
    ("Content-Type", "application/json") ].

Definition ipifyRequest : Request :=
  {| url := "https://api.ipify.org?format=json";
     method := GET; headers := []; body := None |}.

Definition listUrl (config : CloudflareConfig) : string :=
  "https://api.cloudflare.com/client/v4/zones/" +++ zoneId config
    +++ "/dns_records?per_page=100".

Definition recordUrl (config : CloudflareConfig) (recordId : string) : string :=
  "https://api.cloudflare.com/client/v4/zones/" +++ zoneId config
    +++ "/dns_records/" +++ recordId.

Definition listRequest (config : CloudflareConfig) : Request :=
  {| url := listUrl config; method := GET;
     headers := authHeaders config; body := None |}.

Definition getRequest (config : CloudflareConfig) (recordId : string) : Request :=
  {| url := recordUrl config recordId; method := GET;
     headers := authHeaders config; body := None |}.

Definition putRequest (config : CloudflareConfig) (recordId : string)
    (b : PutBody) : Request :=
  {| url := recordUrl config recordId; method := PUT;
     headers := authHeaders config; body := Some b |}.

Section Program.
Context {W : Type} (net : Network W) (config : CloudflareConfig).

(** Lines 48-56. *)
Definition getCurrentIP : Prog W string :=
  try_catch
    (data <- fetch_json (ipify net) ipifyRequest ;;
     ret (ip data))
    (fun error => throw (Error ("Failed to get current IP: " +++ toString error))).

(** Lines 59-82. *)
Definition getAllDNSRecords : Prog W (list DNSRecord) :=
  data <- fetch_json (listing net) (listRequest config) ;;
  if negb (success data)
  then throw (Error ("Failed to get DNS records: " +++ errors data))
  else ret (result data).

(** Lines 85-106. *)
Definition getDNSRecord (recordId : string) : Prog W DNSRecord :=
  data <- fetch_json (detail net) (getRequest config recordId) ;;
  if negb (success data)
  then throw (Error ("Failed to get DNS record: " +++ errors data))
  else ret (result data).

(** Lines 109-142. *)
Definition updateDNSRecord (recordId name type ip : string) : Prog W unit :=
  currentRecord <- getDNSRecord recordId ;;
  data <- fetch_json (replace net)
            (putRequest config recordId
               {| body_type := type;
                  body_name := name;
                  body_content := ip;
                  body_ttl := ttl currentRecord;
                  body_proxied := proxied currentRecord |}) ;;
  if negb (success data)
  then throw (Error ("Failed to update DNS record: " +++ errors data))
  else ret tt.

(** The [try] block of the loop body, lines 179-192. *)
Definition processRecord (currentIP : string) (record : DNSRecord)
  : Prog W unit :=
  dnsRecord <- getDNSRecord (id record) ;;
  let recordIP := content dnsRecord in
  console_log ("  Current DNS IP: " +++ recordIP) ;;
  if negb (recordIP =? currentIP)%string
  then
    console_log "  ⚠️  IP mismatch detected! Updating..." ;;
    updateDNSRecord (id record) (name record) (type record) currentIP ;;
    console_log ("  ✅ Successfully updated " +++ name record +++ " to "
                   +++ currentIP)
  else
    console_log "  ✓ IP is up to date".

(** The loop body, lines 176-195. *)
Definition checkRecord (currentIP : string) (record : DNSRecord)
  : Prog W unit :=
  console_log (nl +++ "Checking record: " +++ name record +++ " ("
                 +++ type record +++ ")") ;;
  try_catch
    (processRecord currentIP record)
    (fun error =>
       console_error ("  ❌ Error processing record " +++ name record +++ ":")
         (Some error)).

(** The filter of lines 159-161. *)
Definition filterAllowed (allRecords : list DNSRecord) : list DNSRecord :=
  filter (fun record => includes (allowedRecords config) (name record))
    allRecords.

(** Lines 145-203. *)
Definition checkAndUpdateIP : Prog W unit :=
  console_log "Cloudflare IP Checker - Starting..." ;;
  console_log ("Looking for records: " +++ join ", " (allowedRecords config)) ;;
  try_catch
    (currentIP <- getCurrentIP ;;
     console_log ("Current server IP: " +++ currentIP) ;;
     console_log (nl +++ "Fetching DNS records from Cloudflare...") ;;
     allRecords <- getAllDNSRecords ;;
     let allowedRecords' := filterAllowed allRecords in
     if (length allowedRecords' =? 0)%nat
     then
       console_log (nl +++ "⚠️  No records matching allowed list found: "
                      +++ join ", " (allowedRecords config))
     else
       console_log ("Found " +++ Nat_toString (length allowedRecords')
                      +++ " matching record(s)") ;;
       forOf allowedRecords' (checkRecord currentIP) ;;
       console_log (nl +++ "✅ IP check completed"))
    (fun error =>
       console_error "❌ Fatal error:" (Some error) ;;
       process_exit 1).

(** The first [n] iterations of the [while (true)] of lines 211-224.
    [Returned tt] says that they all completed and the loop goes on. *)
Fixpoint mainLoop (n : nat) : Prog W unit :=
  match n with
  | O => ret tt
  | S k =>
      checkAndUpdateIP ;;
      emit (NextCheckLog
              (number_mul (number_mul (checkIntervalMinutes config) (Num 60))
                 (Num 1000))) ;;
      console_log ("---" +++ nl) ;;
      sleep (number_mul (number_mul (checkIntervalMinutes config) (Num 60))
               (Num 1000)) ;;
      mainLoop k
  end.
End Program.

(* ------------------------------------------------------------------ *)
(** ** Start-up (index.ts, lines 20-45 and 205-224) *)

(** The four variables read from [process.env]; [None] is [undefined]. *)
Record ProcessEnv : Type := {
  CLOUDFLARE_API_TOKEN : option string;
  CLOUDFLARE_ZONE_ID : option string;
  CLOUDFLARE_ALLOWED_RECORDS : option string;
  CHECK_INTERVAL_MINUTES : option string
}.

(** [v || d] for [v : string | undefined]: the empty string is falsy. *)
Definition orElse (v : option string) (d : string) : string :=
  match v with
  | Some s => if (s =? EmptyString)%string then d else s
  | None => d
  end.

(** *** [parseInt(s, 10)] on UTF-8 text *)

Definition byte (c : ascii) : nat := nat_of_ascii c.

Definition isAsciiSpace (c : ascii) : bool :=
  let n := byte c in
  (n =? 9)%nat || (n =? 10)%nat || (n =? 11)%nat || (n =? 12)%nat || (n =? 13)%nat || (n =? 32)%nat.

(** U+1680, U+2000..U+200A, U+2028, U+2029, U+202F, U+205F, U+3000, U+FEFF. *)
Definition isSpace3 (a b c : ascii) : bool :=
  let x := byte a in
  let y := byte b in
  let z := byte c in
  ((x =? 225)%nat && (y =? 154)%nat && (z =? 128)%nat)
  || ((x =? 226)%nat && (y =? 128)%nat
      && (((128 <=? z)%nat && (z <=? 138)%nat) || (z =? 168)%nat || (z =? 169)%nat || (z =? 175)%nat))
  || ((x =? 226)%nat && (y =? 129)%nat && (z =? 159)%nat)
  || ((x =? 227)%nat && (y =? 128)%nat && (z =? 128)%nat)
  || ((x =? 239)%nat && (y =? 187)%nat && (z =? 191)%nat).

(** Leading [StrWhiteSpaceChar]s removed. *)
Fixpoint trimStart (s : string) : string :=
  match s with
  | EmptyString => s
  | String a r1 =>
      if isAsciiSpace a then trimStart r1
      else
        match r1 with
        | EmptyString => s
        | String b r2 =>
            if (byte a =? 194)%nat && (byte b =? 160)%nat then trimStart r2  (* U+00A0 *)
            else
              match r2 with
              | EmptyString => s
              | String c r3 => if isSpace3 a b c then trimStart r3 else s
              end
        end
  end.

Definition isDigit (c : ascii) : bool :=
  (48 <=? byte c)%nat && (byte c <=? 57)%nat.

(** The value of the longest prefix of decimal digits, [None] if it is
    empty; [acc] is the value read so far. *)
Fixpoint leadingDigits (s : string) (acc : option Z) : option Z :=
  match s with
  | EmptyString => acc
  | String c rest =>
      if isDigit c
      then leadingDigits rest
             (Some (10 * match acc with Some v => v | None => 0 end
                    + (Z.of_nat (byte c) - 48))%Z)
      else acc
  end.

Definition parseInt10 (s : string) : number :=
  let t := trimStart s in
  let '(sign, digits) :=
    match t with
    | String "-" r => ((-1)%Z, r)
    | String "+" r => (1%Z, r)
    | _ => (1%Z, t)
    end in
  match leadingDigits digits None with
  | None => NaN
  | Some v => Num (sign * v)
  end.

(** Digits stop at the end of the text or at the first other character. *)
Definition endsNumeral (tail : string) : Prop :=
  match tail with
  | EmptyString => True
  | String c _ => isDigit c = false
  end.

(** [env] with [CHECK_INTERVAL_MINUTES] set to [interval]. *)
Definition withInterval (env : ProcessEnv) (interval : option string)
  : ProcessEnv :=
  {| CLOUDFLARE_API_TOKEN := CLOUDFLARE_API_TOKEN env;
     CLOUDFLARE_ZONE_ID := CLOUDFLARE_ZONE_ID env;
     CLOUDFLARE_ALLOWED_RECORDS := CLOUDFLARE_ALLOWED_RECORDS env;
     CHECK_INTERVAL_MINUTES := interval |}.

Section Startup.
Context {W : Type} (net : Network W).

(** [JSON.parse] at the type the configuration gives its result
    ([string[]]); [inl] is the [SyntaxError] it throws. *)
Variable JSON_parse : string -> JsError + list string.

(** Lines 21-26. *)
Definition loadConfig (env : ProcessEnv) : Prog W CloudflareConfig :=
  let apiToken := orElse (CLOUDFLARE_API_TOKEN env) EmptyString in
  let zoneId := orElse (CLOUDFLARE_ZONE_ID env) EmptyString in
  match JSON_parse (orElse (CLOUDFLARE_ALLOWED_RECORDS env) "[]") with
  | inl e => throw e
  | inr allowedRecords =>
      ret {| apiToken := apiToken;
             zoneId := zoneId;
             allowedRecords := allowedRecords;
             checkIntervalMinutes :=
               parseInt10 (orElse (CHECK_INTERVAL_MINUTES env) "5") |}
  end.

(** Lines 29-45. *)
Definition validateConfig (config : CloudflareConfig) : Prog W unit :=
  (if (apiToken config =? EmptyString)%string
   then
     console_error
       "Error: CLOUDFLARE_API_TOKEN environment variable is required" None ;;
     process_exit 1
   else ret tt) ;;
  (if (zoneId config =? EmptyString)%string
   then
     console_error
       "Error: CLOUDFLARE_ZONE_ID environment variable is required" None ;;
     process_exit 1
   else ret tt) ;;
  (if (length (allowedRecords config) =? 0)%nat
   then
     console_error
       "Error: CLOUDFLARE_ALLOWED_RECORDS environment variable is required"
       None ;;
     console_error ("Format: [" +++ dq +++ "home.thoor.me" +++ dq +++ "," +++ dq
                      +++ "*.home.thoor.me" +++ dq +++ "]") None ;;
     process_exit 1
   else ret tt).

(** The module's top level, with the loop cut after [n] iterations.  An
    exception that reaches the top level ([Thrown]) is uncaught. *)
Definition main (env : ProcessEnv) (n : nat) : Prog W unit :=
  config <- loadConfig env ;;
  validateConfig config ;;
  console_log (nl +++ "🔄 Running checks every "
                 +++ Number_toString (checkIntervalMinutes config)
                 +++ " minute(s)") ;;
  console_log ("Press Ctrl+C to stop" +++ nl) ;;
  mainLoop net config n.
End Startup.

(* ------------------------------------------------------------------ *)
(** ** Two concrete networks to run the program against *)

(** A network that plays back fixed answers, one queue per call site; an
    exhausted queue makes the call reject. *)
Module Scripted.
Record Script : Type := {
  ipReplies : list (Reply IpifyBody);
  listReplies : list (Reply (ApiResponse (list DNSRecord)));
  getReplies : list (Reply (ApiResponse DNSRecord));
  putReplies : list (Reply (ApiResponse unit))
}.

Definition fetchFailed : JsError :=
  {| err_name := "TypeError"; err_message := "fetch failed" |}.

Definition next {T} (q : list (Reply T)) : Reply T * list (Reply T) :=
  match q with
  | [] => (Rejected fetchFailed, [])
  | r :: rest => (r, rest)
  end.

Definition net : Network Script := {|
  ipify := fun _ s =>
    let '(r, q) := next (ipReplies s) in
    (r, {| ipReplies := q; listReplies := listReplies s;
           getReplies := getReplies s; putReplies := putReplies s |});
  listing := fun _ s =>
    let '(r, q) := next (listReplies s) in
    (r, {| ipReplies := ipReplies s; listReplies := q;
           getReplies := getReplies s; putReplies := putReplies s |});
  detail := fun _ s =>
    let '(r, q) := next (getReplies s) in
    (r, {| ipReplies := ipReplies s; listReplies := listReplies s;
           getReplies := q; putReplies := putReplies s |});
  replace := fun _ s =>
    let '(r, q) := next (putReplies s) in
    (r, {| ipReplies := ipReplies s; listReplies := listReplies s;
           getReplies := getReplies s; putReplies := q |})
|}.

Definition ok {T} (v : T) : Reply (ApiResponse T) :=
  Json {| success := true; result := v; errors := "[]" |}.

Definition failed {T} (v : T) (errs : string) : Reply (ApiResponse T) :=
  Json {| success := false; result := v; errors := errs |}.
End Scripted.

(** A provider that behaves as a store: the host has one public address, the
    zone holds records, the listing returns the first page of at most 100 of
    them, a record is read and fully replaced through its URL, and nothing
    else changes the zone. *)
Module Zone.
Record State : Type := {
  publicIP : string;
  records : list DNSRecord
}.

Definition noRecord : DNSRecord :=
  {| id := EmptyString; name := EmptyString; type := EmptyString;
     content := EmptyString; proxied := false; ttl := 0 |}.

Definition notFound : string := "[{code:81044,message:Record not found}]".

Definition addressed (config : CloudflareConfig) (req : Request)
    (r : DNSRecord) : bool :=
  (url req =? recordUrl config (id r))%string.

Definition overwrite (b : PutBody) (r : DNSRecord) : DNSRecord :=
  {| id := id r; name := body_name b; type := body_type b;
     content := body_content b; proxied := body_proxied b;
     ttl := body_ttl b |}.

(** [r] with its content set to [address] and nothing else changed. *)
Definition setContent (address : string) (r : DNSRecord) : DNSRecord :=
  {| id := id r; name := name r; type := type r;
     content := address; proxied := proxied r; ttl := ttl r |}.

Definition settled (address : string) (ids : list string) (r : DNSRecord)
  : DNSRecord :=
  if includes ids (id r) then setContent address r else r.

(** The zone with the content of the records identified in [ids] set to
    [address]. *)
Definition settle (address : string) (ids : list string) (z : State) : State :=
  {| publicIP := publicIP z; records := map (settled address ids) (records z) |}.

Definition found (r : DNSRecord) : ApiResponse DNSRecord :=
  {| success := true; result := r; errors := "[]" |}.

Definition net (config : CloudflareConfig) : Network State := {|
  ipify := fun _ z => (Json {| ip := publicIP z |}, z);
  listing := fun _ z =>
    (Json {| success := true; result := firstn 100 (records z);
             errors := "[]" |}, z);
  detail := fun req z =>
    match find (addressed config req) (records z) with
    | Some r => (Json (found r), z)
    | None =>
        (Json {| success := false; result := noRecord; errors := notFound |}, z)
    end;
  replace := fun req z =>
    match body req, find (addressed config req) (records z) with
    | Some b, Some _ =>
        (Json {| success := true; result := tt; errors := "[]" |},
         {| publicIP := publicIP z;
            records :=
              map (fun r => if addressed config req r then overwrite b r else r)
                (records z) |})
    | _, _ =>
        (Json {| success := false; result := tt; errors := notFound |}, z)
    end
|}.
End Zone.

(** The answer of the store to a listing request. *)
Definition zoneListed (z : Zone.State) : ApiResponse (list DNSRecord) :=
  {| success := true; result := firstn 100 (Zone.records z); errors := "[]" |}.

(** The records a tick against the store iterates over. *)
Definition zoneMatched (config : CloudflareConfig) (z : Zone.State)
  : list DNSRecord :=
  filterAllowed config (firstn 100 (Zone.records z)).

(** Every iterated record is stored under its identifier with the name and
    type it was listed with. *)
Definition listedIn (rs : list DNSRecord) (z : Zone.State) : Prop :=
  forall r, In r rs ->
    exists stored,
      In stored (Zone.records z) /\
      id stored = id r /\ name stored = name r /\ type stored = type r.

(* ------------------------------------------------------------------ *)
(** ** Reading a trace *)

(** Every request issued, in order. *)
Fixpoint fetchCalls (t : Trace) : list Request :=
  match t with
  | [] => []
  | Fetch req :: rest => req :: fetchCalls rest
  | _ :: rest => fetchCalls rest
  end.

Definition isPut (req : Request) : bool :=
  match method req with PUT => true | GET => false end.

(** The update calls: the requests sent with method PUT. *)
Definition updateCalls (t : Trace) : list Request :=
  filter isPut (fetchCalls t).

(** The calls addressed to the DNS provider. *)
Definition providerCalls (t : Trace) : list Request :=
  filter (fun req => String.prefix "https://api.cloudflare.com/" (url req))
    (fetchCalls t).

(** The names carried by the update calls, in the order they were sent. *)
Definition updatedNames (t : Trace) : list string :=
  flat_map (fun req => match body req with
                       | Some b => [body_name b]
                       | None => []
                       end)
    (updateCalls t).

(** The requests for the zone listing. *)
Definition listingCalls (config : CloudflareConfig) (t : Trace) : list Request :=
  filter (fun req => (url req =? listUrl config)%string) (fetchCalls t).

(** A request to the records of the configured zone: it carries the bearer
    header and its URL extends the zone's [dns_records] URL. *)
Definition zoneCall (config : CloudflareConfig) (req : Request) : Prop :=
  headers req = authHeaders config /\
  exists suffix,
    url req =
    "https://api.cloudflare.com/client/v4/zones/" +++ zoneId config
      +++ "/dns_records" +++ suffix.

(** The delays the process slept for, in order. *)
Fixpoint sleeps (t : Trace) : list number :=
  match t with
  | [] => []
  | SetTimeout delay :: rest => delay :: sleeps rest
  | _ :: rest => sleeps rest
  end.

(** [process.env] with the variables that hold the empty string removed. *)
Definition unsetEmpty (v : option string) : option string :=
  match v with
  | Some s => if (s =? EmptyString)%string then None else Some s
  | None => None
  end.

Definition withoutEmpty (env : ProcessEnv) : ProcessEnv :=
  {| CLOUDFLARE_API_TOKEN := unsetEmpty (CLOUDFLARE_API_TOKEN env);
     CLOUDFLARE_ZONE_ID := unsetEmpty (CLOUDFLARE_ZONE_ID env);
     CLOUDFLARE_ALLOWED_RECORDS := unsetEmpty (CLOUDFLARE_ALLOWED_RECORDS env);
     CHECK_INTERVAL_MINUTES := unsetEmpty (CHECK_INTERVAL_MINUTES env) |}.

Definition traceOf {W A} (r : Trace * W * Outcome A) : Trace := fst (fst r).
Definition worldOf {W A} (r : Trace * W * Outcome A) : W := snd (fst r).
Definition outcomeOf {W A} (r : Trace * W * Outcome A) : Outcome A := snd r.

Section Loop.
Context {W : Type} (net : Network W) (config : CloudflareConfig).

(** The loop of lines 175-196 unrolled: for each record iterated, the world
    it is processed in and the events its iteration produces. *)
Fixpoint recordRuns (currentIP : string) (rs : list DNSRecord) (w : W)
  : list (DNSRecord * W * Trace) :=
  match rs with
  | [] => []
  | r :: rest =>
      let run := checkRecord net config currentIP r w in
      (r, w, traceOf run) :: recordRuns currentIP rest (worldOf run)
  end.

(** The world the loop leaves. *)
Fixpoint loopWorld (currentIP : string) (rs : list DNSRecord) (w : W) : W :=
  match rs with
  | [] => w
  | r :: rest =>
      loopWorld currentIP rest
        (worldOf (checkRecord net config currentIP r w))
  end.

Definition runTrace (run : DNSRecord * W * Trace) : Trace := snd run.

(** What a tick writes and requests before it reaches the loop. *)
Definition tickPrelude (currentIP : string) : Trace :=
  [ ConsoleLog "Cloudflare IP Checker - Starting...";
    ConsoleLog ("Looking for records: " +++ join ", " (allowedRecords config));
    Fetch ipifyRequest;
    ConsoleLog ("Current server IP: " +++ currentIP);
    ConsoleLog (nl +++ "Fetching DNS records from Cloudflare...");
    Fetch (listRequest config) ].

Definition checkingLine (r : DNSRecord) : Event :=
  ConsoleLog (nl +++ "Checking record: " +++ name r +++ " (" +++ type r +++ ")").

Definition recordErrorLine (r : DNSRecord) (e : JsError) : Event :=
  ConsoleError ("  ❌ Error processing record " +++ name r +++ ":") (Some e).

Definition fatalLine (e : JsError) : Event :=
  ConsoleError "❌ Fatal error:" (Some e).

(** The events of an iteration that finds the record up to date. *)
Definition upToDateTrace (r : DNSRecord) (recordIP : string) : Trace :=
  [ checkingLine r;
    Fetch (getRequest config (id r));
    ConsoleLog ("  Current DNS IP: " +++ recordIP);
    ConsoleLog "  ✓ IP is up to date" ].

(** The body written for [r] when the address is [currentIP] and the
    snapshot fetched before the write is [snapshot]. *)
Definition updateBody (r : DNSRecord) (currentIP : string)
    (snapshot : DNSRecord) : PutBody :=
  {| body_type := type r;
     body_name := name r;
     body_content := currentIP;
     body_ttl := ttl snapshot;
     body_proxied := proxied snapshot |}.

(** The events of an iteration up to and including the write. *)
Definition updateAttempt (r : DNSRecord) (recordIP currentIP : string)
    (snapshot : DNSRecord) : Trace :=
  [ checkingLine r;
    Fetch (getRequest config (id r));
    ConsoleLog ("  Current DNS IP: " +++ recordIP);
    ConsoleLog "  ⚠️  IP mismatch detected! Updating...";
    Fetch (getRequest config (id r));
    Fetch (putRequest config (id r) (updateBody r currentIP snapshot)) ].

Definition updatedLine (r : DNSRecord) (currentIP : string) : Event :=
  ConsoleLog ("  ✅ Successfully updated " +++ name r +++ " to " +++ currentIP).

Definition noMatchLine : Event :=
  ConsoleLog (nl +++ "⚠️  No records matching allowed list found: "
                +++ join ", " (allowedRecords config)).

Definition foundLine (n : nat) : Event :=
  ConsoleLog ("Found " +++ Nat_toString n +++ " matching record(s)").

Definition completedLine : Event :=
  ConsoleLog (nl +++ "✅ IP check completed").

Definition delay : number :=
  number_mul (number_mul (checkIntervalMinutes config) (Num 60)) (Num 1000).

(** Between two ticks (lines 214-223). *)
Definition betweenTicks : Trace :=
  [ NextCheckLog delay; ConsoleLog ("---" +++ nl); SetTimeout delay ].
End Loop.

(* ------------------------------------------------------------------ *)
(** ** Concrete inputs used below *)

Module Sample.
Definition config : CloudflareConfig :=
  {| apiToken := "token"; zoneId := "zone";
     allowedRecords := ["a.example.com"];
     checkIntervalMinutes := Num 5 |}.

Definition recA : DNSRecord :=
  {| id := "id-a"; name := "a.example.com"; type := "A";
     content := "1.1.1.1"; proxied := true; ttl := 300 |}.

Definition recB : DNSRecord :=
  {| id := "id-b"; name := "b.example.com"; type := "A";
     content := "1.1.1.1"; proxied := false; ttl := 120 |}.

(** The zone of the example in the specification. *)
Definition zone : Zone.State :=
  {| Zone.publicIP := "2.2.2.2"; Zone.records := [recA; recB] |}.

Definition here : IpifyBody := {| ip := "2.2.2.2" |}.

Definition listed : ApiResponse (list DNSRecord) :=
  {| success := true; result := [recA; recB]; errors := "[]" |}.


(** Both names allowed. *)
Definition both : CloudflareConfig :=
  {| apiToken := "token"; zoneId := "zone";
     allowedRecords := ["a.example.com"; "b.example.com"];
     checkIntervalMinutes := Num 5 |}.

(** A tick in which the provider refuses the read of the first record. *)
Definition refusedRead : Scripted.Script :=
  {| Scripted.ipReplies := [Json here];
     Scripted.listReplies := [Json listed];
     Scripted.getReplies :=
       [ Scripted.failed Zone.noRecord "[boom]";
         Scripted.ok recB; Scripted.ok recB ];
     Scripted.putReplies := [Scripted.ok tt] |}.

(** Two ticks: the record is found with the old content, then with the
    new one. *)
Definition roundTrip : Scripted.Script :=
  {| Scripted.ipReplies := [Json here; Json here];
     Scripted.listReplies := [Json listed; Json listed];
     Scripted.getReplies :=
       [ Scripted.ok recA; Scripted.ok recA;
         Scripted.ok (Zone.setContent "2.2.2.2" recA) ];
     Scripted.putReplies := [Scripted.ok tt] |}.

(** The address service is unreachable. *)
Definition offline : Scripted.Script :=
  {| Scripted.ipReplies := []; Scripted.listReplies := [];
     Scripted.getReplies := []; Scripted.putReplies := [] |}.

(** The provider refuses the listing. *)
Definition refusedListing : Scripted.Script :=
  {| Scripted.ipReplies := [Json here];
     Scripted.listReplies := [Scripted.failed [] "[denied]"];
     Scripted.getReplies := []; Scripted.putReplies := [] |}.

(** Both names allowed, listed the other way round. *)
Definition bothReversed : CloudflareConfig :=
  {| apiToken := "token"; zoneId := "zone";
     allowedRecords := ["b.example.com"; "a.example.com"];
     checkIntervalMinutes := Num 5 |}.

(** The zone after a.example.com was renamed and retyped behind the
    program's back. *)
Definition renamed : Zone.State :=
  {| Zone.publicIP := "2.2.2.2";
     Zone.records :=
       [ {| id := "id-a"; name := "renamed.example.com"; type := "AAAA";
            content := "1.1.1.1"; proxied := false; ttl := 60 |};
         recB ] |}.

(** An environment with the three required variables set. *)
Definition env (interval : option string) : ProcessEnv :=
  {| CLOUDFLARE_API_TOKEN := Some "token";
     CLOUDFLARE_ZONE_ID := Some "zone";
     CLOUDFLARE_ALLOWED_RECORDS := Some "[a.example.com]";
     CHECK_INTERVAL_MINUTES := interval |}.

(** A stand-in for [JSON.parse] that knows one text. *)
Definition parse (text : string) : JsError + list string :=
  if (text =? "[a.example.com]")%string then inr ["a.example.com"]
  else if (text =? "[]")%string then inr []
  else inl {| err_name := "SyntaxError"; err_message := "Unexpected token" |}.

(** No allowed name is in the zone. *)
Definition elsewhere : CloudflareConfig :=
  {| apiToken := "token"; zoneId := "zone";
     allowedRecords := ["c.example.com"];
     checkIntervalMinutes := Num 5 |}.
End Sample.

(* ------------------------------------------------------------------ *)
(** ** Run equations *)

(** Unfolds the loop body down to the handlers of the network. *)
Ltac unfold_body :=
  unfold checkRecord, processRecord, updateDNSRecord, getDNSRecord,
    try_catch, bind, fetch_json, console_log, console_error, emit, throw, ret.

Section RunEquations.
Context {W : Type} (net : Network W) (config : CloudflareConfig).

Lemma getDNSRecord_run (recordId : string) (w : W) :
  getDNSRecord net config recordId w =
  match detail net (getRequest config recordId) w with
  | (Rejected e, w') => ([Fetch (getRequest config recordId)], w', Thrown e)
  | (Json data, w') =>
      ([Fetch (getRequest config recordId)], w',
       if success data then Returned (result data)
       else Thrown (Error ("Failed to get DNS record: " +++ errors data)))
  end.
Proof.
  unfold getDNSRecord, bind, fetch_json.
  destruct (detail net (getRequest config recordId) w) as [[e | data] w'];
    [reflexivity |].
  destruct (success data); reflexivity.
Qed.

Lemma getAllDNSRecords_run (w : W) :
  getAllDNSRecords net config w =
  match listing net (listRequest config) w with
  | (Rejected e, w') => ([Fetch (listRequest config)], w', Thrown e)
  | (Json data, w') =>
      ([Fetch (listRequest config)], w',
       if success data then Returned (result data)
       else Thrown (Error ("Failed to get DNS records: " +++ errors data)))
  end.
Proof.
  unfold getAllDNSRecords, bind, fetch_json.
  destruct (listing net (listRequest config) w) as [[e | data] w'];
    [reflexivity |].
  destruct (success data); reflexivity.
Qed.

Lemma getCurrentIP_run (w : W) :
  getCurrentIP net w =
  match ipify net ipifyRequest w with
  | (Rejected e, w') =>
      ([Fetch ipifyRequest], w',
       Thrown (Error ("Failed to get current IP: " +++ toString e)))
  | (Json data, w') => ([Fetch ipifyRequest], w', Returned (ip data))
  end.
Proof.
  unfold getCurrentIP, try_catch, bind, fetch_json, throw.
  destruct (ipify net ipifyRequest w) as [[e | data] w']; reflexivity.
Qed.

(** The loop body never throws and never exits. *)
Lemma checkRecord_returns (currentIP : string) (r : DNSRecord) (w : W) :
  outcomeOf (checkRecord net config currentIP r w) = Returned tt.
Proof.
  unfold_body.
  destruct (detail net (getRequest config (id r)) w) as [[e | d1] w1];
    [reflexivity |].
  destruct (success d1); cbn [negb]; [| reflexivity].
  destruct (content (result d1) =? currentIP)%string; cbn [negb];
    [reflexivity |].
  destruct (detail net (getRequest config (id r)) w1) as [[e | d2] w2];
    [reflexivity |].
  destruct (success d2); cbn [negb]; [| reflexivity].
  destruct (replace net _ w2) as [[e | d3] w3]; [reflexivity |].
  destruct (success d3); reflexivity.
Qed.

(** An iteration whose first read finds the content equal to the address. *)
Lemma checkRecord_up_to_date (currentIP : string) (r : DNSRecord) (w w1 : W)
    (d : ApiResponse DNSRecord) :
  detail net (getRequest config (id r)) w = (Json d, w1) ->
  success d = true ->
  content (result d) = currentIP ->
  checkRecord net config currentIP r w =
  (upToDateTrace config r (content (result d)), w1, Returned tt).
Proof.
  intros Hget Hok Hsame. unfold_body.
  rewrite Hget, Hok. cbn [negb].
  rewrite Hsame, String.eqb_refl. reflexivity.
Qed.

(** An iteration whose first read finds another content and whose second
    read succeeds: the write is issued, and its answer decides how the
    iteration ends. *)
Lemma checkRecord_update (currentIP : string) (r : DNSRecord) (w w1 w2 : W)
    (d cur : ApiResponse DNSRecord) :
  detail net (getRequest config (id r)) w = (Json d, w1) ->
  success d = true ->
  content (result d) <> currentIP ->
  detail net (getRequest config (id r)) w1 = (Json cur, w2) ->
  success cur = true ->
  checkRecord net config currentIP r w =
  let attempt :=
    updateAttempt config r (content (result d)) currentIP (result cur) in
  match replace net
          (putRequest config (id r) (updateBody r currentIP (result cur))) w2
  with
  | (Rejected e, w3) => (attempt ++ [recordErrorLine r e], w3, Returned tt)
  | (Json ans, w3) =>
      if success ans
      then (attempt ++ [updatedLine r currentIP], w3, Returned tt)
      else (attempt ++
              [recordErrorLine r
                 (Error ("Failed to update DNS record: " +++ errors ans))],
            w3, Returned tt)
  end.
Proof.
  intros Hget Hok Hdiff Hget2 Hok2. unfold_body.
  rewrite Hget, Hok. cbn [negb].
  apply String.eqb_neq in Hdiff. rewrite Hdiff. cbn [negb].
  rewrite Hget2, Hok2. cbn [negb].
  unfold updateBody.
  destruct (replace net _ w2) as [[e | ans] w3]; [reflexivity |].
  destruct (success ans); reflexivity.
Qed.

(** An iteration whose [try] block throws: the error is written and the
    iteration returns. *)
Lemma checkRecord_caught (currentIP : string) (r : DNSRecord) (w w' : W)
    (t : Trace) (e : JsError) :
  processRecord net config currentIP r w = (t, w', Thrown e) ->
  checkRecord net config currentIP r w =
  (checkingLine r :: t ++ [recordErrorLine r e], w', Returned tt).
Proof.
  intros Hthrow.
  unfold checkRecord, try_catch, bind at 1, console_log, console_error, emit.
  rewrite Hthrow. reflexivity.
Qed.

(** A provider answer with [success: false] on the first read makes the
    [try] block throw. *)
Lemma processRecord_read_refused (currentIP : string) (r : DNSRecord)
    (w w1 : W) (d : ApiResponse DNSRecord) :
  detail net (getRequest config (id r)) w = (Json d, w1) ->
  success d = false ->
  processRecord net config currentIP r w =
  ([Fetch (getRequest config (id r))], w1,
   Thrown (Error ("Failed to get DNS record: " +++ errors d))).
Proof.
  intros Hget Hko.
  unfold processRecord, getDNSRecord, bind, fetch_json, throw.
  rewrite Hget, Hko. reflexivity.
Qed.

(** The loop is the concatenation of its iterations and always returns. *)
Lemma forOf_checkRecord (currentIP : string) (rs : list DNSRecord) :
  forall w,
    forOf rs (checkRecord net config currentIP) w =
    (concat (map runTrace (recordRuns net config currentIP rs w)),
     loopWorld net config currentIP rs w, Returned tt).
Proof.
  induction rs as [| r rest IH]; intros w; [reflexivity |].
  cbn [forOf recordRuns loopWorld map concat runTrace snd].
  unfold bind.
  pose proof (checkRecord_returns currentIP r w) as Hret.
  destruct (checkRecord net config currentIP r w) as [[t w'] o].
  cbn [outcomeOf traceOf worldOf fst snd] in *. subst o.
  rewrite IH. reflexivity.
Qed.

Lemma recordRuns_records (currentIP : string) (rs : list DNSRecord) :
  forall w, map (fun run => fst (fst run)) (recordRuns net config currentIP rs w) = rs.
Proof.
  induction rs as [| r rest IH]; intros w; [reflexivity |].
  cbn [recordRuns map fst]. now rewrite IH.
Qed.

Lemma recordRuns_app (currentIP : string) (pre post : list DNSRecord) :
  forall w,
    recordRuns net config currentIP (pre ++ post) w =
    recordRuns net config currentIP pre w ++
    recordRuns net config currentIP post
      (loopWorld net config currentIP pre w).
Proof.
  induction pre as [| r rest IH]; intros w; [reflexivity |].
  cbn [app recordRuns loopWorld]. now rewrite IH.
Qed.

(** Every entry of the unrolled loop is the loop body run on that record
    in that world. *)
Lemma recordRuns_In (currentIP : string) (rs : list DNSRecord) :
  forall w r wr tr,
    In (r, wr, tr) (recordRuns net config currentIP rs w) ->
    In r rs /\ tr = traceOf (checkRecord net config currentIP r wr).
Proof.
  induction rs as [| r0 rest IH]; intros w r wr tr Hin; [contradiction |].
  cbn [recordRuns] in Hin. destruct Hin as [Heq | Hin].
  - inversion Heq; subst. split; [now left | reflexivity].
  - apply IH in Hin. destruct Hin as [Hin Htr]. split; [now right | exact Htr].
Qed.

(** A tick whose address lookup and zone listing both succeed. *)
Lemma checkAndUpdateIP_listed (w w1 w2 : W) (who : IpifyBody)
    (l : ApiResponse (list DNSRecord)) :
  ipify net ipifyRequest w = (Json who, w1) ->
  listing net (listRequest config) w1 = (Json l, w2) ->
  success l = true ->
  checkAndUpdateIP net config w =
  match filterAllowed config (result l) with
  | [] => (tickPrelude config (ip who) ++ [noMatchLine config], w2, Returned tt)
  | matched =>
      (tickPrelude config (ip who) ++
         foundLine (length matched) ::
         concat (map runTrace (recordRuns net config (ip who) matched w2)) ++
         [completedLine],
       loopWorld net config (ip who) matched w2, Returned tt)
  end.
Proof.
  intros Hip Hlist Hok.
  unfold checkAndUpdateIP.
  unfold try_catch, bind at 1 2 3 4 5 6, console_log, emit.
  rewrite getCurrentIP_run, Hip, getAllDNSRecords_run, Hlist, Hok.
  destruct (filterAllowed config (result l)) as [| r rest] eqn:Hm.
  - reflexivity.
  - cbn [length Nat.eqb].
    unfold bind. rewrite forOf_checkRecord. reflexivity.
Qed.

(** A tick whose address lookup fails. *)
Lemma checkAndUpdateIP_no_address (w w1 : W) (e : JsError) :
  ipify net ipifyRequest w = (Rejected e, w1) ->
  checkAndUpdateIP net config w =
  ([ ConsoleLog "Cloudflare IP Checker - Starting...";
     ConsoleLog ("Looking for records: " +++ join ", " (allowedRecords config));
     Fetch ipifyRequest;
     fatalLine (Error ("Failed to get current IP: " +++ toString e)) ],
   w1, Exited 1).
Proof.
  intros Hip.
  unfold checkAndUpdateIP, try_catch, bind, console_log, console_error, emit,
    process_exit.
  rewrite getCurrentIP_run, Hip. reflexivity.
Qed.

(** A tick whose zone listing fails, by rejection or by [success: false]. *)
Lemma checkAndUpdateIP_no_listing (w w1 w2 : W) (who : IpifyBody)
    (answer : Reply (ApiResponse (list DNSRecord))) (e : JsError) :
  ipify net ipifyRequest w = (Json who, w1) ->
  listing net (listRequest config) w1 = (answer, w2) ->
  match answer with
  | Rejected e' => e = e'
  | Json l =>
      success l = false /\
      e = Error ("Failed to get DNS records: " +++ errors l)
  end ->
  checkAndUpdateIP net config w =
  (tickPrelude config (ip who) ++ [fatalLine e], w2, Exited 1).
Proof.
  intros Hip Hlist He.
  unfold checkAndUpdateIP, try_catch, bind, console_log, console_error, emit,
    process_exit.
  rewrite getCurrentIP_run, Hip, getAllDNSRecords_run, Hlist.
  destruct answer as [e' | l].
  - subst e'. reflexivity.
  - destruct He as [Hko He]. rewrite Hko. subst e. reflexivity.
Qed.

(** After a tick that returns, the loop sleeps and goes round again. *)
Lemma mainLoop_continues (n : nat) (w w1 : W) (t : Trace) :
  checkAndUpdateIP net config w = (t, w1, Returned tt) ->
  mainLoop net config (S n) w =
  (t ++ betweenTicks config ++ traceOf (mainLoop net config n w1),
   worldOf (mainLoop net config n w1),
   outcomeOf (mainLoop net config n w1)).
Proof.
  intros Htick. cbn [mainLoop]. unfold bind at 1. rewrite Htick.
  unfold bind, sleep, console_log, emit.
  destruct (mainLoop net config n w1) as [[t2 w2] o]. reflexivity.
Qed.

(** After a tick that exits, nothing more happens. *)
Lemma mainLoop_exits (n : nat) (w w1 : W) (t : Trace) (code : Z) :
  checkAndUpdateIP net config w = (t, w1, Exited code) ->
  mainLoop net config (S n) w = (t, w1, Exited code).
Proof.
  intros Htick. cbn [mainLoop]. unfold bind at 1. now rewrite Htick.
Qed.
End RunEquations.

(* ------------------------------------------------------------------ *)
(** ** The store provider *)

Lemma append_inj_l (p a b : string) : p +++ a = p +++ b -> a = b.
Proof.
  induction p as [| c p IH]; cbn [String.append]; intros H; [exact H |].
  injection H as H. now apply IH.
Qed.

Lemma recordUrl_inj (config : CloudflareConfig) (i j : string) :
  recordUrl config i = recordUrl config j -> i = j.
Proof.
  unfold recordUrl. intros H.
  now repeat apply append_inj_l in H.
Qed.

Lemma includes_In (xs : list string) (x : string) :
  includes xs x = true <-> In x xs.
Proof.
  induction xs as [| y ys IH]; cbn [includes In].
  - split; [discriminate | contradiction].
  - destruct (String.eqb_spec y x) as [-> | Hne].
    + split; [now left | reflexivity].
    + rewrite IH. split; [now right | intros [H | H]; [contradiction | exact H]].
Qed.

Lemma find_same {A} (f g : A -> bool) (xs : list A) :
  (forall x, f x = g x) -> find f xs = find g xs.
Proof.
  intros Hfg. induction xs as [| x rest IH]; [reflexivity |].
  cbn [find]. now rewrite Hfg, IH.
Qed.

Section ZoneFacts.
Variable config : CloudflareConfig.

Lemma addressed_get (recordId : string) (x : DNSRecord) (m : Method)
    (b : option PutBody) :
  Zone.addressed config
    {| url := recordUrl config recordId; method := m;
       headers := authHeaders config; body := b |} x
  = (recordId =? id x)%string.
Proof.
  unfold Zone.addressed. cbn [url].
  destruct (String.eqb_spec recordId (id x)) as [-> | Hne].
  - apply String.eqb_refl.
  - apply String.eqb_neq. intros H. apply Hne. exact (recordUrl_inj _ _ _ H).
Qed.

Lemma find_by_id (rs : list DNSRecord) (x : DNSRecord) :
  NoDup (map id rs) -> In x rs ->
  find (fun y => (id x =? id y)%string) rs = Some x.
Proof.
  induction rs as [| y rest IH]; intros Hnd Hin; [contradiction |].
  cbn [map] in Hnd. inversion Hnd as [| ? ? Hnotin Hnd']; subst.
  cbn [find]. destruct Hin as [-> | Hin].
  - now rewrite String.eqb_refl.
  - destruct (String.eqb_spec (id x) (id y)) as [Heq | _].
    + exfalso. apply Hnotin. rewrite <- Heq. now apply in_map.
    + now apply IH.
Qed.

Lemma find_addressed (recordId : string) (m : Method) (b : option PutBody)
    (rs : list DNSRecord) (x : DNSRecord) :
  NoDup (map id rs) -> In x rs -> id x = recordId ->
  find (Zone.addressed config
          {| url := recordUrl config recordId; method := m;
             headers := authHeaders config; body := b |}) rs = Some x.
Proof.
  intros Hnd Hin <-.
  rewrite <- (find_by_id rs x Hnd Hin).
  apply find_same. intros y. apply addressed_get.
Qed.

(** With unique identifiers, rewriting the records that carry one
    identifier only touches the record that carries it. *)
Lemma map_on_id (f g : DNSRecord -> DNSRecord) (rs : list DNSRecord)
    (x : DNSRecord) :
  NoDup (map id rs) -> In x rs -> f x = g x ->
  map (fun y => if (id x =? id y)%string then f y else y) rs =
  map (fun y => if (id x =? id y)%string then g y else y) rs.
Proof.
  intros Hnd Hin Hfg. apply map_ext_in. intros y Hy.
  destruct (String.eqb_spec (id x) (id y)) as [Heq | _]; [| reflexivity].
  assert (y = x) as ->; [| exact Hfg].
  pose proof (find_by_id rs x Hnd Hin) as Hx.
  pose proof (find_by_id rs y Hnd Hy) as Hy'.
  rewrite <- Heq in Hy'. congruence.
Qed.

Lemma settle_one (address recordId : string) (z : Zone.State) :
  Zone.settle address [recordId] z =
  {| Zone.publicIP := Zone.publicIP z;
     Zone.records :=
       map (fun y => if (recordId =? id y)%string
                     then Zone.setContent address y else y)
         (Zone.records z) |}.
Proof.
  unfold Zone.settle, Zone.settled. f_equal. apply map_ext. intros y.
  cbn [includes]. now destruct (recordId =? id y)%string.
Qed.

(** One iteration against the store: the record stored under the iterated
    identifier ends with the address as content, whether or not a write
    was needed. *)
Lemma zone_checkRecord (address : string) (r stored : DNSRecord)
    (z : Zone.State) :
  NoDup (map id (Zone.records z)) ->
  In stored (Zone.records z) ->
  id stored = id r -> name stored = name r -> type stored = type r ->
  checkRecord (Zone.net config) config address r z =
  (if (content stored =? address)%string
   then upToDateTrace config r (content stored)
   else updateAttempt config r (content stored) address stored
          ++ [updatedLine r address],
   Zone.settle address [id r] z, Returned tt).
Proof.
  intros Hnd Hin Hid Hname Htype.
  assert (Hget : detail (Zone.net config) (getRequest config (id r)) z
                 = (Json (Zone.found stored), z)).
  { cbn [detail Zone.net]. unfold getRequest.
    now rewrite (find_addressed (id r) GET None _ stored Hnd Hin Hid). }
  rewrite settle_one, <- Hid.
  destruct (String.eqb_spec (content stored) address) as [Hsame | Hdiff].
  - rewrite (checkRecord_up_to_date (Zone.net config) config address r z z
               (Zone.found stored) Hget eq_refl Hsame).
    cbn [Zone.found result]. f_equal. f_equal.
    destruct z as [pub rs]. cbn [Zone.publicIP Zone.records] in *. f_equal.
    symmetry.
    rewrite (map_on_id (Zone.setContent address) (fun y => y) rs stored Hnd Hin).
    + rewrite <- (map_id rs) at 2. apply map_ext. intros y.
      now destruct (id stored =? id y)%string.
    + destruct stored; cbn in *; subst; reflexivity.
  - rewrite (checkRecord_update (Zone.net config) config address r z z z
               (Zone.found stored) (Zone.found stored)
               Hget eq_refl Hdiff Hget eq_refl).
    cbv zeta. cbn [Zone.found result].
    cbn [replace Zone.net]. unfold putRequest at 1 2. cbn [body].
    rewrite (find_addressed (id r) PUT _ _ stored Hnd Hin Hid).
    cbn [success].
    match goal with
    | |- (_, {| Zone.publicIP := _; Zone.records := ?a |}, _) =
         (_, {| Zone.publicIP := _; Zone.records := ?b |}, _) =>
        assert (Hmap : a = b)
    end.
    { transitivity
        (map (fun y => if (id stored =? id y)%string
                       then Zone.overwrite (updateBody r address stored) y
                       else y) (Zone.records z)).
      - apply map_ext. intros y. unfold putRequest.
        now rewrite addressed_get, Hid.
      - apply (map_on_id _ _ _ stored Hnd Hin).
        unfold Zone.overwrite, Zone.setContent, updateBody.
        cbn [body_name body_type body_content body_proxied body_ttl].
        now rewrite Hname, Htype. }
    now rewrite Hmap.
Qed.
End ZoneFacts.

Lemma fetchCalls_app (a b : Trace) :
  fetchCalls (a ++ b) = fetchCalls a ++ fetchCalls b.
Proof.
  induction a as [| ev a IH]; [reflexivity |].
  destruct ev; cbn [app fetchCalls]; now rewrite IH.
Qed.

Lemma updateCalls_app (a b : Trace) :
  updateCalls (a ++ b) = updateCalls a ++ updateCalls b.
Proof. unfold updateCalls. now rewrite fetchCalls_app, filter_app. Qed.

Lemma updateCalls_upToDate (config : CloudflareConfig) (rs : list DNSRecord) :
  updateCalls (concat (map (fun r => upToDateTrace config r (content r)) rs)) = [].
Proof.
  induction rs as [| r rest IH]; [reflexivity |].
  cbn [map concat]. rewrite updateCalls_app, IH. reflexivity.
Qed.

Section ZoneLoop.
Variable config : CloudflareConfig.
Variable address : string.

Let settled := Zone.settled address.

Lemma settled_id ids r : id (settled ids r) = id r.
Proof. unfold settled, Zone.settled. now destruct (includes ids (id r)). Qed.

Lemma settled_name ids r : name (settled ids r) = name r.
Proof. unfold settled, Zone.settled. now destruct (includes ids (id r)). Qed.

Lemma settled_type ids r : type (settled ids r) = type r.
Proof. unfold settled, Zone.settled. now destruct (includes ids (id r)). Qed.

Lemma settle_ids ids z :
  map id (Zone.records (Zone.settle address ids z)) = map id (Zone.records z).
Proof.
  unfold Zone.settle. cbn [Zone.records]. rewrite map_map.
  apply map_ext. intros r. apply (settled_id ids r).
Qed.

Lemma settle_listedIn ids rs z :
  listedIn rs z -> listedIn rs (Zone.settle address ids z).
Proof.
  intros H r Hr. destruct (H r Hr) as [stored [Hin [Hid [Hname Htype]]]].
  exists (settled ids stored). split.
  - unfold Zone.settle. cbn [Zone.records].
    exact (in_map (settled ids) _ _ Hin).
  - now rewrite settled_id, settled_name, settled_type.
Qed.

Lemma settle_settle i ids z :
  Zone.settle address ids (Zone.settle address [i] z) =
  Zone.settle address (i :: ids) z.
Proof.
  unfold Zone.settle, Zone.settled. cbn [Zone.records Zone.publicIP]. f_equal.
  rewrite map_map. apply map_ext. intros r.
  cbn [includes].
  destruct (i =? id r)%string eqn:Hi.
  - cbn [Zone.setContent id]. now destruct (includes ids (id r)).
  - reflexivity.
Qed.

(** The loop against the store leaves every iterated record with the
    address as content and nothing else changed. *)
Lemma zone_loopWorld (rs : list DNSRecord) :
  forall z,
    NoDup (map id (Zone.records z)) -> listedIn rs z ->
    loopWorld (Zone.net config) config address rs z =
    Zone.settle address (map id rs) z.
Proof.
  induction rs as [| r rest IH]; intros z Hnd Hin.
  - destruct z as [pub records]. unfold Zone.settle, Zone.settled.
    cbn [loopWorld map includes Zone.records Zone.publicIP].
    now rewrite map_id.
  - cbn [loopWorld map].
    destruct (Hin r (or_introl eq_refl))
      as [stored [Hstored [Hid [Hname Htype]]]].
    rewrite (zone_checkRecord config address r stored z
               Hnd Hstored Hid Hname Htype).
    cbn [worldOf fst snd].
    rewrite IH.
    + apply settle_settle.
    + now rewrite settle_ids.
    + apply settle_listedIn. intros x Hx. apply Hin. now right.
Qed.

Lemma settle_noop (stored : DNSRecord) (z : Zone.State) :
  NoDup (map id (Zone.records z)) -> In stored (Zone.records z) ->
  content stored = address ->
  Zone.settle address [id stored] z = z.
Proof.
  intros Hnd Hin Hsame. rewrite settle_one.
  destruct z as [pub rs]. cbn [Zone.publicIP Zone.records] in *. f_equal.
  rewrite (map_on_id (Zone.setContent address) (fun y => y) rs stored Hnd Hin).
  - rewrite <- (map_id rs) at 2. apply map_ext. intros y.
    now destruct (id stored =? id y)%string.
  - destruct stored; cbn in *; subst; reflexivity.
Qed.

(** The loop over records that are stored with the address as content
    only reads. *)
Lemma zone_loop_up_to_date (rs : list DNSRecord) (z : Zone.State) :
  NoDup (map id (Zone.records z)) ->
  (forall r, In r rs -> In r (Zone.records z) /\ content r = address) ->
  recordRuns (Zone.net config) config address rs z =
    map (fun r => (r, z, upToDateTrace config r (content r))) rs /\
  loopWorld (Zone.net config) config address rs z = z.
Proof.
  intros Hnd. induction rs as [| r rest IH]; intros Hall; [now split |].
  destruct (Hall r (or_introl eq_refl)) as [Hin Hsame].
  cbn [recordRuns loopWorld map].
  rewrite (zone_checkRecord config address r r z Hnd Hin eq_refl eq_refl eq_refl).
  cbn [worldOf traceOf fst snd].
  rewrite (settle_noop r z Hnd Hin Hsame).
  rewrite Hsame, String.eqb_refl.
  destruct IH as [IHruns IHworld]; [intros x Hx; apply Hall; now right |].
  rewrite IHruns, IHworld. rewrite <- Hsame. now split.
Qed.

Lemma filterAllowed_settled ids (rs : list DNSRecord) :
  filterAllowed config (map (settled ids) rs) =
  map (settled ids) (filterAllowed config rs).
Proof.
  unfold filterAllowed. induction rs as [| r rest IH]; [reflexivity |].
  cbn [map filter]. rewrite settled_name.
  destruct (includes (allowedRecords config) (name r));
    cbn [map]; now rewrite IH.
Qed.
End ZoneLoop.

Lemma In_firstn {A} (n : nat) (xs : list A) (x : A) :
  In x (firstn n xs) -> In x xs.
Proof.
  intros H. rewrite <- (firstn_skipn n xs). apply in_or_app. now left.
Qed.

Lemma filterAllowed_In (config : CloudflareConfig) (all : list DNSRecord)
    (r : DNSRecord) :
  In r (filterAllowed config all) <->
  In r all /\ In (name r) (allowedRecords config).
Proof.
  unfold filterAllowed. rewrite filter_In, includes_In. reflexivity.
Qed.

Section ZoneTick.
Variable config : CloudflareConfig.

Lemma zone_tick_world (z : Zone.State) :
  NoDup (map id (Zone.records z)) ->
  worldOf (checkAndUpdateIP (Zone.net config) config z) =
    Zone.settle (Zone.publicIP z) (map id (zoneMatched config z)) z /\
  outcomeOf (checkAndUpdateIP (Zone.net config) config z) = Returned tt.
Proof.
  intros Hnd.
  rewrite (checkAndUpdateIP_listed (Zone.net config) config z z z
             {| ip := Zone.publicIP z |} (zoneListed z)
             eq_refl eq_refl eq_refl).
  cbn [ip zoneListed result]. fold (zoneMatched config z).
  pose proof (zone_loopWorld config (Zone.publicIP z) (zoneMatched config z) z Hnd)
    as Hloop.
  destruct (zoneMatched config z) as [| r rest] eqn:Hm.
  - cbn [worldOf outcomeOf fst snd map]. split; [| reflexivity].
    destruct z as [pub rs]. unfold Zone.settle, Zone.settled.
    cbn [includes Zone.records Zone.publicIP]. now rewrite map_id.
  - cbn [worldOf outcomeOf fst snd]. split; [| reflexivity].
    apply Hloop. intros x Hx. exists x. rewrite <- Hm in Hx.
    apply filterAllowed_In in Hx. destruct Hx as [Hx _].
    apply In_firstn in Hx. now repeat split.
Qed.

(** A tick against a store whose matched records already hold the
    address: it reads each of them and writes nothing. *)
Lemma zone_tick_up_to_date (z : Zone.State) :
  NoDup (map id (Zone.records z)) ->
  (forall r, In r (zoneMatched config z) -> content r = Zone.publicIP z) ->
  checkAndUpdateIP (Zone.net config) config z =
  (tickPrelude config (Zone.publicIP z) ++
     match zoneMatched config z with
     | [] => [noMatchLine config]
     | matched =>
         foundLine (length matched) ::
         concat (map (fun r => upToDateTrace config r (content r)) matched) ++
         [completedLine]
     end,
   z, Returned tt).
Proof.
  intros Hnd Hall.
  rewrite (checkAndUpdateIP_listed (Zone.net config) config z z z
             {| ip := Zone.publicIP z |} (zoneListed z)
             eq_refl eq_refl eq_refl).
  cbn [ip zoneListed result]. fold (zoneMatched config z).
  destruct (zone_loop_up_to_date config (Zone.publicIP z) (zoneMatched config z) z Hnd)
    as [Hruns Hworld].
  { intros r Hr. split; [| now apply Hall].
    apply filterAllowed_In in Hr. destruct Hr as [Hr _].
    now apply In_firstn in Hr. }
  destruct (zoneMatched config z) as [| r rest]; [reflexivity |].
  rewrite Hruns, Hworld, map_map. reflexivity.
Qed.

(** After a tick against the store, every matched record holds the
    address. *)
Lemma zone_settled_matched (z : Zone.State) :
  let z1 := Zone.settle (Zone.publicIP z) (map id (zoneMatched config z)) z in
  forall r, In r (zoneMatched config z1) -> content r = Zone.publicIP z1.
Proof.
  intros z1 r Hr. unfold z1, zoneMatched, Zone.settle in Hr.
  cbn [Zone.records] in Hr.
  rewrite firstn_map, filterAllowed_settled in Hr.
  apply in_map_iff in Hr. destruct Hr as [x [<- Hx]].
  unfold Zone.settled.
  assert (Hid : includes (map id (zoneMatched config z)) (id x) = true).
  { apply includes_In. now apply in_map. }
  unfold zoneMatched in Hid. rewrite Hid. reflexivity.
Qed.
End ZoneTick.

(* ------------------------------------------------------------------ *)
(** ** The claims *)

Lemma concat_runs_split {W} (runs : list (DNSRecord * W * Trace))
    (run : DNSRecord * W * Trace) :
  In run runs ->
  exists before after,
    concat (map runTrace runs) = before ++ runTrace run ++ after.
Proof.
  intros Hin. apply in_split in Hin. destruct Hin as [pre [post ->]].
  exists (concat (map runTrace pre)), (concat (map runTrace post)).
  rewrite map_app, concat_app. reflexivity.
Qed.

(** The events of one iteration of the loop form a contiguous part of the
    tick's trace. *)
Lemma run_in_tick {W} (net : Network W) (config : CloudflareConfig)
    (w w1 w2 : W) (who : IpifyBody) (l : ApiResponse (list DNSRecord))
    (run : DNSRecord * W * Trace) :
  ipify net ipifyRequest w = (Json who, w1) ->
  listing net (listRequest config) w1 = (Json l, w2) ->
  success l = true ->
  In run (recordRuns net config (ip who)
            (filterAllowed config (result l)) w2) ->
  exists before after,
    traceOf (checkAndUpdateIP net config w) = before ++ runTrace run ++ after.
Proof.
  intros Hip Hlist Hok Hin.
  rewrite (checkAndUpdateIP_listed net config w w1 w2 who l Hip Hlist Hok).
  destruct (filterAllowed config (result l)) as [| r0 rest]; [contradiction |].
  destruct (concat_runs_split _ _ Hin) as [before [after Hcat]].
  exists (tickPrelude config (ip who) ++ foundLine (length (r0 :: rest)) :: before),
    (after ++ [completedLine]).
  cbn [traceOf fst]. rewrite Hcat.
  rewrite <- ?app_assoc. cbn [app]. rewrite <- ?app_assoc. reflexivity.
Qed.

(** An iteration sends no PUT or one, and the one it sends is for the
    iterated record with the address as content. *)
Lemma checkRecord_updates {W} (net : Network W) (config : CloudflareConfig)
    (currentIP : string) (r : DNSRecord) (w : W) :
  updateCalls (traceOf (checkRecord net config currentIP r w)) = [] \/
  exists snapshot,
    updateCalls (traceOf (checkRecord net config currentIP r w)) =
    [ putRequest config (id r) (updateBody r currentIP snapshot) ].
Proof.
  unfold_body.
  destruct (detail net (getRequest config (id r)) w) as [[e | d1] w1];
    [now left |].
  destruct (success d1); cbn [negb]; [| now left].
  destruct (content (result d1) =? currentIP)%string; cbn [negb];
    [now left |].
  destruct (detail net (getRequest config (id r)) w1) as [[e | d2] w2];
    [now left |].
  destruct (success d2); cbn [negb]; [| now left].
  right. exists (result d2).
  destruct (replace net _ w2) as [[e | d3] w3]; [reflexivity |].
  destruct (success d3); reflexivity.
Qed.

(** C1. (a) In a tick whose address lookup and listing succeed, take any
    iteration of the loop over the matched records.  If the read of that
    record returns a content different from the discovered address and the
    read made inside the update returns a snapshot, then the iteration issues
    exactly one PUT, right after that second read; the PUT goes to the
    record's URL, its body carries the discovered address as content and the
    snapshot's ttl and proxied.  (b) Whatever the provider answers, an
    iteration issues at most one PUT, and that PUT has this form. *)
Theorem update_issued_once_with_fetched_settings :
  (forall (W : Type) (net : Network W) (config : CloudflareConfig)
          (w w1 w2 wr wr1 wr2 : W) (who : IpifyBody)
          (l : ApiResponse (list DNSRecord)) (r : DNSRecord) (tr : Trace)
          (d cur : ApiResponse DNSRecord),
      ipify net ipifyRequest w = (Json who, w1) ->
      listing net (listRequest config) w1 = (Json l, w2) ->
      success l = true ->
      In (r, wr, tr)
        (recordRuns net config (ip who) (filterAllowed config (result l)) w2) ->
      detail net (getRequest config (id r)) wr = (Json d, wr1) ->
      success d = true ->
      content (result d) <> ip who ->
      detail net (getRequest config (id r)) wr1 = (Json cur, wr2) ->
      success cur = true ->
      (exists before after,
         traceOf (checkAndUpdateIP net config w) = before ++ tr ++ after) /\
      (exists last,
         tr = [ checkingLine r;
                Fetch (getRequest config (id r));
                ConsoleLog ("  Current DNS IP: " +++ content (result d));
                ConsoleLog "  ⚠️  IP mismatch detected! Updating...";
                Fetch (getRequest config (id r));
                Fetch (putRequest config (id r)
                         (updateBody r (ip who) (result cur)));
                last ]) /\
      updateCalls tr =
        [ {| url := recordUrl config (id r);
             method := PUT;
             headers := authHeaders config;
             body := Some {| body_type := type r;
                             body_name := name r;
                             body_content := ip who;
                             body_ttl := ttl (result cur);
                             body_proxied := proxied (result cur) |} |} ]) /\
  (forall (W : Type) (net : Network W) (config : CloudflareConfig)
          (w w1 w2 wr : W) (who : IpifyBody)
          (l : ApiResponse (list DNSRecord)) (r : DNSRecord) (tr : Trace),
      ipify net ipifyRequest w = (Json who, w1) ->
      listing net (listRequest config) w1 = (Json l, w2) ->
      success l = true ->
      In (r, wr, tr)
        (recordRuns net config (ip who) (filterAllowed config (result l)) w2) ->
      updateCalls tr = [] \/
      exists snapshot,
        updateCalls tr =
        [ putRequest config (id r) (updateBody r (ip who) snapshot) ]).
Proof.
  split.
  - intros W net config w w1 w2 wr wr1 wr2 who l r tr d cur
      Hip Hlist Hok Hin Hget Hd Hdiff Hget2 Hcur.
    split.
    + exact (run_in_tick net config w w1 w2 who l (r, wr, tr) Hip Hlist Hok Hin).
    + apply recordRuns_In in Hin. destruct Hin as [_ ->].
      rewrite (checkRecord_update net config (ip who) r wr wr1 wr2 d cur
                 Hget Hd Hdiff Hget2 Hcur).
      cbv zeta.
      destruct (replace net _ wr2) as [[e | ans] w3];
        [| destruct (success ans)];
        (split; [eexists; reflexivity | reflexivity]).
  - intros W net config w w1 w2 wr who l r tr _ _ _ Hin.
    apply recordRuns_In in Hin. destruct Hin as [_ ->].
    apply checkRecord_updates.
Qed.

Lemma update_issued_once_with_fetched_settings_witness :
  updateCalls
    (traceOf (checkRecord (Zone.net Sample.config) Sample.config "2.2.2.2"
                Sample.recA Sample.zone)) =
  [ putRequest Sample.config "id-a"
      {| body_type := "A"; body_name := "a.example.com";
         body_content := "2.2.2.2"; body_ttl := 300; body_proxied := true |} ].
Proof.
  refine (proj2 (proj2
    (proj1 update_issued_once_with_fetched_settings
       Zone.State (Zone.net Sample.config)
       Sample.config Sample.zone Sample.zone Sample.zone
       Sample.zone Sample.zone Sample.zone
       Sample.here Sample.listed Sample.recA _
       (Zone.found Sample.recA) (Zone.found Sample.recA)
       _ _ _ _ _ _ _ _ _))).
  - reflexivity.
  - reflexivity.
  - reflexivity.
  - left. reflexivity.
  - reflexivity.
  - reflexivity.
  - discriminate.
  - reflexivity.
  - reflexivity.
Defined.

(** The PUTs of a tick that reaches the loop are those of its iterations. *)
Lemma updateCalls_tick {W} (net : Network W) (config : CloudflareConfig)
    (w w1 w2 : W) (who : IpifyBody) (l : ApiResponse (list DNSRecord)) :
  ipify net ipifyRequest w = (Json who, w1) ->
  listing net (listRequest config) w1 = (Json l, w2) ->
  success l = true ->
  updateCalls (traceOf (checkAndUpdateIP net config w)) =
  updateCalls
    (concat (map runTrace
               (recordRuns net config (ip who)
                  (filterAllowed config (result l)) w2))).
Proof.
  intros Hip Hlist Hok.
  rewrite (checkAndUpdateIP_listed net config w w1 w2 who l Hip Hlist Hok).
  destruct (filterAllowed config (result l)) as [| r rest]; [reflexivity |].
  cbn [traceOf fst]. rewrite updateCalls_app.
  change (updateCalls (tickPrelude config (ip who))) with (@nil Request).
  cbn [app].
  match goal with
  | |- updateCalls (?x :: ?t ++ ?y) = _ =>
      change (x :: t ++ y) with ([x] ++ t ++ y)
  end.
  rewrite !updateCalls_app. cbn [app]. apply app_nil_r.
Qed.

Lemma updateCalls_runs {W} (runs : list (DNSRecord * W * Trace)) :
  (forall run, In run runs -> updateCalls (runTrace run) = []) ->
  updateCalls (concat (map runTrace runs)) = [].
Proof.
  induction runs as [| run rest IH]; intros Hall; [reflexivity |].
  cbn [map concat]. rewrite updateCalls_app, (Hall run (or_introl eq_refl)).
  apply IH. intros x Hx. apply Hall. now right.
Qed.

(** C2. (a) In a tick whose address lookup and listing succeed, an iteration
    whose read of the record returns a content equal to the discovered
    address consists of that one read: no PUT is issued and the line
    "IP is up to date" is logged.  (b) Hence a tick in which every iteration
    reads a content equal to the discovered address issues no PUT at all.
    (c) Against a provider that stores what is written to it, with unique
    record identifiers and an unchanged public address, the tick that follows
    a tick is such a tick: it finds every matched record up to date, issues
    no PUT and leaves the zone as it was. *)
Theorem up_to_date_record_not_written_second_tick_idle :
  (forall (W : Type) (net : Network W) (config : CloudflareConfig)
          (w w1 w2 wr wr1 : W) (who : IpifyBody)
          (l : ApiResponse (list DNSRecord)) (r : DNSRecord) (tr : Trace)
          (d : ApiResponse DNSRecord),
      ipify net ipifyRequest w = (Json who, w1) ->
      listing net (listRequest config) w1 = (Json l, w2) ->
      success l = true ->
      In (r, wr, tr)
        (recordRuns net config (ip who) (filterAllowed config (result l)) w2) ->
      detail net (getRequest config (id r)) wr = (Json d, wr1) ->
      success d = true ->
      content (result d) = ip who ->
      tr = [ checkingLine r;
             Fetch (getRequest config (id r));
             ConsoleLog ("  Current DNS IP: " +++ ip who);
             ConsoleLog "  ✓ IP is up to date" ] /\
      updateCalls tr = [] /\
      (exists before after,
         traceOf (checkAndUpdateIP net config w) = before ++ tr ++ after)) /\
  (forall (W : Type) (net : Network W) (config : CloudflareConfig)
          (w w1 w2 : W) (who : IpifyBody) (l : ApiResponse (list DNSRecord)),
      ipify net ipifyRequest w = (Json who, w1) ->
      listing net (listRequest config) w1 = (Json l, w2) ->
      success l = true ->
      (forall r wr tr,
          In (r, wr, tr)
            (recordRuns net config (ip who)
               (filterAllowed config (result l)) w2) ->
          exists d wr1,
            detail net (getRequest config (id r)) wr = (Json d, wr1) /\
            success d = true /\
            content (result d) = ip who) ->
      updateCalls (traceOf (checkAndUpdateIP net config w)) = []) /\
  (forall (config : CloudflareConfig) (z : Zone.State),
      NoDup (map id (Zone.records z)) ->
      let first := checkAndUpdateIP (Zone.net config) config z in
      let second := checkAndUpdateIP (Zone.net config) config (worldOf first) in
      outcomeOf first = Returned tt /\
      second =
        (tickPrelude config (Zone.publicIP z) ++
           match zoneMatched config (worldOf first) with
           | [] => [noMatchLine config]
           | matched =>
               foundLine (length matched) ::
               concat (map (fun r => upToDateTrace config r (content r)) matched)
               ++ [completedLine]
           end,
         worldOf first, Returned tt) /\
      updateCalls (traceOf second) = []).
Proof.
  split; [| split].
  - intros W net config w w1 w2 wr wr1 who l r tr d
      Hip Hlist Hok Hin Hget Hd Hsame.
    pose proof (run_in_tick net config w w1 w2 who l (r, wr, tr)
                  Hip Hlist Hok Hin) as Hpart.
    apply recordRuns_In in Hin. destruct Hin as [_ Htr].
    rewrite (checkRecord_up_to_date net config (ip who) r wr wr1 d
               Hget Hd Hsame) in Htr.
    cbn [traceOf fst] in Htr. unfold upToDateTrace in Htr.
    rewrite Hsame in Htr. subst tr.
    split; [reflexivity | split; [reflexivity | exact Hpart]].
  - intros W net config w w1 w2 who l Hip Hlist Hok Hall.
    rewrite (updateCalls_tick net config w w1 w2 who l Hip Hlist Hok).
    apply updateCalls_runs. intros [[r wr] tr] Hin.
    destruct (Hall r wr tr Hin) as [d [wr1 [Hget [Hd Hsame]]]].
    apply recordRuns_In in Hin. destruct Hin as [_ ->].
    cbn [runTrace snd].
    now rewrite (checkRecord_up_to_date net config (ip who) r wr wr1 d
                   Hget Hd Hsame).
  - intros config z Hnd first second.
    destruct (zone_tick_world config z Hnd) as [Hworld Hout].
    fold first in Hworld, Hout.
    assert (Hsecond :
      second =
        (tickPrelude config (Zone.publicIP z) ++
           match zoneMatched config (worldOf first) with
           | [] => [noMatchLine config]
           | matched =>
               foundLine (length matched) ::
               concat (map (fun r => upToDateTrace config r (content r)) matched)
               ++ [completedLine]
           end,
         worldOf first, Returned tt)).
    { unfold second. rewrite Hworld.
      apply (zone_tick_up_to_date config
               (Zone.settle (Zone.publicIP z) (map id (zoneMatched config z)) z)).
      - now rewrite settle_ids.
      - apply zone_settled_matched. }
    split; [exact Hout | split; [exact Hsecond |]].
    rewrite Hsecond. cbn [traceOf fst].
    rewrite updateCalls_app.
    destruct (zoneMatched config (worldOf first)) as [| r rest];
      [reflexivity |].
    change (foundLine (length (r :: rest)) ::
            concat (map (fun r0 => upToDateTrace config r0 (content r0)) (r :: rest))
            ++ [completedLine])
      with ([foundLine (length (r :: rest))] ++
            concat (map (fun r0 => upToDateTrace config r0 (content r0)) (r :: rest))
            ++ [completedLine]).
    now rewrite !updateCalls_app, updateCalls_upToDate.
Qed.

(** The round trip of the specification, on scripted answers: the first tick
    finds the old content and writes once, the second finds the new content,
    logs that the record is up to date and writes nothing; the same holds
    when the provider is the store. *)
Lemma up_to_date_record_not_written_second_tick_idle_witness :
  let first := checkAndUpdateIP Scripted.net Sample.config Sample.roundTrip in
  let second := checkAndUpdateIP Scripted.net Sample.config (worldOf first) in
  length (updateCalls (traceOf first)) = 1 /\
  updateCalls (traceOf second) = [] /\
  In (ConsoleLog "  ✓ IP is up to date") (traceOf second) /\
  updateCalls
    (traceOf (checkAndUpdateIP (Zone.net Sample.config) Sample.config
                (worldOf (checkAndUpdateIP (Zone.net Sample.config)
                            Sample.config Sample.zone)))) = [].
Proof.
  intros first second.
  split; [reflexivity |].
  split; [| split].
  - refine (proj1 (proj2 up_to_date_record_not_written_second_tick_idle)
              Scripted.Script Scripted.net Sample.config (worldOf first)
              _ _ Sample.here Sample.listed _ _ _ _).
    + reflexivity.
    + reflexivity.
    + reflexivity.
    + intros r wr tr Hin. vm_compute in Hin.
      destruct Hin as [Hrun | []]. inversion Hrun; subst.
      eexists. eexists. split; [reflexivity |]. split; reflexivity.
  - vm_compute. tauto.
  - refine (proj2 (proj2
      (proj2 (proj2 up_to_date_record_not_written_second_tick_idle)
         Sample.config Sample.zone _))).
    repeat constructor; cbn; intuition discriminate.
Defined.

(** The PUT of an iteration that reads another content and obtains its
    snapshot. *)
Lemma updateCalls_update {W} (net : Network W) (config : CloudflareConfig)
    (currentIP : string) (r : DNSRecord) (w w1 w2 : W)
    (d cur : ApiResponse DNSRecord) :
  detail net (getRequest config (id r)) w = (Json d, w1) ->
  success d = true ->
  content (result d) <> currentIP ->
  detail net (getRequest config (id r)) w1 = (Json cur, w2) ->
  success cur = true ->
  updateCalls (traceOf (checkRecord net config currentIP r w)) =
  [ putRequest config (id r) (updateBody r currentIP (result cur)) ].
Proof.
  intros Hget Hd Hdiff Hget2 Hcur.
  rewrite (checkRecord_update net config currentIP r w w1 w2 d cur
             Hget Hd Hdiff Hget2 Hcur).
  cbv zeta.
  destruct (replace net _ w2) as [[e | ans] w3];
    [| destruct (success ans)]; reflexivity.
Qed.

(** C3. The filter keeps a listed record exactly when its name is, as a
    string, one of the entries of the allow-list; it keeps the listing's
    order; an entry with a star is compared like any other.  In the example
    (allow-list [a.example.com]; records a.example.com and b.example.com with
    content 1.1.1.1, whatever their other fields; address 2.2.2.2; a provider
    that stores what is written), the tick issues exactly one PUT, to the URL
    of a.example.com and with its name. *)
Theorem filter_is_literal_name_membership :
  (forall (config : CloudflareConfig) (all : list DNSRecord) (r : DNSRecord),
      In r (filterAllowed config all) <->
      In r all /\ In (name r) (allowedRecords config)) /\
  (forall (config : CloudflareConfig) (pre post : list DNSRecord),
      filterAllowed config (pre ++ post) =
      filterAllowed config pre ++ filterAllowed config post) /\
  (forall (token zone : string) (interval : number) (others : list DNSRecord)
          (i t c : string) (p : bool) (l : Z),
      let config :=
        {| apiToken := token; zoneId := zone;
           allowedRecords := ["*.example.com"];
           checkIntervalMinutes := interval |} in
      filterAllowed config
        ({| id := i; name := "www.example.com"; type := t; content := c;
            proxied := p; ttl := l |} :: others) =
      filterAllowed config others /\
      filterAllowed config
        ({| id := i; name := "*.example.com"; type := t; content := c;
            proxied := p; ttl := l |} :: others) =
      {| id := i; name := "*.example.com"; type := t; content := c;
         proxied := p; ttl := l |} :: filterAllowed config others) /\
  (forall (token zone : string) (interval : number)
          (ida idb ta tb : string) (pa pb : bool) (la lb : Z),
      let config :=
        {| apiToken := token; zoneId := zone;
           allowedRecords := ["a.example.com"];
           checkIntervalMinutes := interval |} in
      let z :=
        {| Zone.publicIP := "2.2.2.2";
           Zone.records :=
             [ {| id := ida; name := "a.example.com"; type := ta;
                  content := "1.1.1.1"; proxied := pa; ttl := la |};
               {| id := idb; name := "b.example.com"; type := tb;
                  content := "1.1.1.1"; proxied := pb; ttl := lb |} ] |} in
      updateCalls (traceOf (checkAndUpdateIP (Zone.net config) config z)) =
      [ {| url := recordUrl config ida;
           method := PUT;
           headers := authHeaders config;
           body := Some {| body_type := ta;
                           body_name := "a.example.com";
                           body_content := "2.2.2.2";
                           body_ttl := la;
                           body_proxied := pa |} |} ]).
Proof.
  split; [exact filterAllowed_In |].
  split; [intros; apply filter_app |].
  split.
  - intros token zone interval others i t c p l config. split; reflexivity.
  - intros token zone interval ida idb ta tb pa pb la lb config z.
    rewrite (updateCalls_tick (Zone.net config) config z z z
               {| ip := "2.2.2.2" |} (zoneListed z)
               eq_refl eq_refl eq_refl).
    set (ra := {| id := ida; name := "a.example.com"; type := ta;
                  content := "1.1.1.1"; proxied := pa; ttl := la |}).
    assert (Hget : detail (Zone.net config) (getRequest config (id ra)) z
                   = (Json (Zone.found ra), z)).
    { cbn [detail Zone.net]. unfold z. cbn [Zone.records find].
      unfold getRequest. rewrite addressed_get, String.eqb_refl. reflexivity. }
    change (filterAllowed config (result (zoneListed z))) with [ra].
    cbn [recordRuns map concat runTrace snd ip]. rewrite app_nil_r.
    rewrite (updateCalls_update (Zone.net config) config "2.2.2.2" ra z z z
               (Zone.found ra) (Zone.found ra) Hget eq_refl).
    + reflexivity.
    + discriminate.
    + exact Hget.
    + reflexivity.
Qed.

Lemma filter_is_literal_name_membership_witness :
  In Sample.recA (filterAllowed Sample.config [Sample.recA; Sample.recB]) /\
  ~ In Sample.recB (filterAllowed Sample.config [Sample.recA; Sample.recB]).
Proof.
  split.
  - apply (proj1 filter_is_literal_name_membership Sample.config
             [Sample.recA; Sample.recB] Sample.recA).
    split; left; reflexivity.
  - intros Hin.
    apply (proj1 filter_is_literal_name_membership Sample.config
             [Sample.recA; Sample.recB] Sample.recB) in Hin.
    destruct Hin as [_ [Hname | []]]. discriminate Hname.
Defined.

(** A provider answer with [success: false] on the write makes the [try]
    block throw, after the write was sent. *)
Lemma processRecord_write_refused {W} (net : Network W)
    (config : CloudflareConfig) (currentIP : string) (r : DNSRecord)
    (w w1 w2 w3 : W) (d cur : ApiResponse DNSRecord) (ans : ApiResponse unit) :
  detail net (getRequest config (id r)) w = (Json d, w1) ->
  success d = true ->
  content (result d) <> currentIP ->
  detail net (getRequest config (id r)) w1 = (Json cur, w2) ->
  success cur = true ->
  replace net (putRequest config (id r) (updateBody r currentIP (result cur))) w2
    = (Json ans, w3) ->
  success ans = false ->
  processRecord net config currentIP r w =
  ([ Fetch (getRequest config (id r));
     ConsoleLog ("  Current DNS IP: " +++ content (result d));
     ConsoleLog "  ⚠️  IP mismatch detected! Updating...";
     Fetch (getRequest config (id r));
     Fetch (putRequest config (id r) (updateBody r currentIP (result cur))) ],
   w3, Thrown (Error ("Failed to update DNS record: " +++ errors ans))).
Proof.
  intros Hget Hd Hdiff Hget2 Hcur Hput Hans.
  unfold processRecord, updateDNSRecord, getDNSRecord, bind, fetch_json,
    console_log, emit, throw, ret.
  rewrite Hget, Hd. cbn [negb].
  apply String.eqb_neq in Hdiff. rewrite Hdiff. cbn [negb].
  rewrite Hget2, Hcur. cbn [negb].
  unfold updateBody in Hput. rewrite Hput, Hans. reflexivity.
Qed.

(** C4.  Let A and B be consecutive matched records of a tick that reaches
    the loop, and let the [try] block of A's iteration throw (as it does when
    the provider answers [success: false] to A's read or to A's write).  Then
    the error is written with [console.error], B's iteration runs next in the
    world A's left, it reads B and writes it or not according to the content
    it reads, the tick returns without exiting, and the main loop sleeps and
    starts the next tick. *)
Theorem record_failure_does_not_stop_the_tick
    {W} (net : Network W) (config : CloudflareConfig)
    (w w1 w2 wA' : W) (who : IpifyBody) (l : ApiResponse (list DNSRecord))
    (pre post : list DNSRecord) (A B : DNSRecord) (tA : Trace) (e : JsError)
    (n : nat) :
  ipify net ipifyRequest w = (Json who, w1) ->
  listing net (listRequest config) w1 = (Json l, w2) ->
  success l = true ->
  filterAllowed config (result l) = pre ++ A :: B :: post ->
  processRecord net config (ip who) A (loopWorld net config (ip who) pre w2)
    = (tA, wA', Thrown e) ->
  let tick := checkAndUpdateIP net config w in
  let runB := checkRecord net config (ip who) B wA' in
  (exists before after,
     traceOf tick =
       before
       ++ (checkingLine A :: tA ++ [recordErrorLine A e])
       ++ traceOf runB
       ++ after) /\
  outcomeOf tick = Returned tt /\
  (forall d w',
      detail net (getRequest config (id B)) wA' = (Json d, w') ->
      success d = true ->
      content (result d) = ip who ->
      runB = (upToDateTrace config B (ip who), w', Returned tt)) /\
  (forall d w' cur w'',
      detail net (getRequest config (id B)) wA' = (Json d, w') ->
      success d = true ->
      content (result d) <> ip who ->
      detail net (getRequest config (id B)) w' = (Json cur, w'') ->
      success cur = true ->
      updateCalls (traceOf runB) =
        [ putRequest config (id B) (updateBody B (ip who) (result cur)) ]) /\
  (forall d w',
      detail net (getRequest config (id A))
        (loopWorld net config (ip who) pre w2) = (Json d, w') ->
      success d = false ->
      e = Error ("Failed to get DNS record: " +++ errors d)) /\
  (forall d w' cur w'' ans w3,
      detail net (getRequest config (id A))
        (loopWorld net config (ip who) pre w2) = (Json d, w') ->
      success d = true ->
      content (result d) <> ip who ->
      detail net (getRequest config (id A)) w' = (Json cur, w'') ->
      success cur = true ->
      replace net
        (putRequest config (id A) (updateBody A (ip who) (result cur))) w''
        = (Json ans, w3) ->
      success ans = false ->
      e = Error ("Failed to update DNS record: " +++ errors ans)) /\
  mainLoop net config (S n) w =
    (traceOf tick ++ betweenTicks config
       ++ traceOf (mainLoop net config n (worldOf tick)),
     worldOf (mainLoop net config n (worldOf tick)),
     outcomeOf (mainLoop net config n (worldOf tick))).
Proof.
  intros Hip Hlist Hok Hmatched HA tick runB.
  pose proof (checkAndUpdateIP_listed net config w w1 w2 who l Hip Hlist Hok)
    as Htick.
  fold tick in Htick. rewrite Hmatched in Htick.
  pose proof (checkRecord_caught net config (ip who) A _ wA' tA e HA) as HrunA.
  assert (Hruns :
    recordRuns net config (ip who) (pre ++ A :: B :: post) w2 =
    recordRuns net config (ip who) pre w2 ++
    (A, loopWorld net config (ip who) pre w2,
     checkingLine A :: tA ++ [recordErrorLine A e]) ::
    (B, wA', traceOf runB) ::
    recordRuns net config (ip who) post (worldOf runB)).
  { rewrite recordRuns_app. cbn [recordRuns]. rewrite HrunA.
    reflexivity. }
  destruct (pre ++ A :: B :: post) as [| r0 rest] eqn:Hshape.
  { destruct pre; discriminate. }
  cbv beta iota zeta in Htick. rewrite Hruns in Htick.
  split; [| split; [| split; [| split; [| split; [| split]]]]].
  - exists (tickPrelude config (ip who) ++
            foundLine (length (r0 :: rest)) ::
            concat (map runTrace (recordRuns net config (ip who) pre w2))),
      (concat (map runTrace
                 (recordRuns net config (ip who) post (worldOf runB)))
       ++ [completedLine]).
    rewrite Htick. cbn [traceOf fst].
    rewrite map_app, concat_app. cbn [map concat runTrace snd].
    rewrite <- ?app_assoc. cbn [app]. rewrite <- ?app_assoc. reflexivity.
  - now rewrite Htick.
  - intros d w' Hget Hd Hsame. unfold runB.
    rewrite (checkRecord_up_to_date net config (ip who) B wA' w' d
               Hget Hd Hsame).
    now rewrite Hsame.
  - intros d w' cur w'' Hget Hd Hdiff Hget2 Hcur.
    exact (updateCalls_update net config (ip who) B wA' w' w'' d cur
             Hget Hd Hdiff Hget2 Hcur).
  - intros d w' Hget Hd.
    rewrite (processRecord_read_refused net config (ip who) A _ w' d Hget Hd)
      in HA.
    congruence.
  - intros d w' cur w'' ans w3 Hget Hd Hdiff Hget2 Hcur Hput Hans.
    rewrite (processRecord_write_refused net config (ip who) A _ w' w'' w3
               d cur ans Hget Hd Hdiff Hget2 Hcur Hput Hans) in HA.
    congruence.
  - apply mainLoop_continues.
    change (tick = (traceOf tick, worldOf tick, Returned tt)).
    rewrite Htick. reflexivity.
Qed.

Lemma record_failure_does_not_stop_the_tick_witness :
  outcomeOf (checkAndUpdateIP Scripted.net Sample.both Sample.refusedRead)
    = Returned tt /\
  updateCalls
    (traceOf (checkAndUpdateIP Scripted.net Sample.both Sample.refusedRead))
    = [ putRequest Sample.both "id-b"
          (updateBody Sample.recB "2.2.2.2" Sample.recB) ].
Proof.
  split; [| reflexivity].
  refine (proj1 (proj2
    (record_failure_does_not_stop_the_tick Scripted.net Sample.both
       Sample.refusedRead _ _ _ Sample.here Sample.listed
       [] [] Sample.recA Sample.recB _ _ 0 _ _ _ _ _))).
  - reflexivity.
  - reflexivity.
  - reflexivity.
  - reflexivity.
  - reflexivity.
Defined.

(** C5.  (a) If the address lookup rejects, the tick writes the fatal error
    and exits the process with code 1, having sent no request to the DNS
    provider.  (b) If the zone listing rejects or answers [success: false],
    the tick writes the fatal error and exits the process with code 1, having
    sent only the two requests made so far.  In both cases the main loop ends
    there: no sleep and no further tick follow. *)
Theorem failure_before_the_loop_exits_the_process :
  (forall (W : Type) (net : Network W) (config : CloudflareConfig)
          (w w1 : W) (e : JsError) (n : nat),
      ipify net ipifyRequest w = (Rejected e, w1) ->
      let tick := checkAndUpdateIP net config w in
      tick =
        ([ ConsoleLog "Cloudflare IP Checker - Starting...";
           ConsoleLog ("Looking for records: "
                         +++ join ", " (allowedRecords config));
           Fetch ipifyRequest;
           ConsoleError "❌ Fatal error:"
             (Some (Error ("Failed to get current IP: " +++ toString e))) ],
         w1, Exited 1) /\
      providerCalls (traceOf tick) = [] /\
      mainLoop net config (S n) w = tick) /\
  (forall (W : Type) (net : Network W) (config : CloudflareConfig)
          (w w1 w2 : W) (who : IpifyBody)
          (answer : Reply (ApiResponse (list DNSRecord))) (e : JsError)
          (n : nat),
      ipify net ipifyRequest w = (Json who, w1) ->
      listing net (listRequest config) w1 = (answer, w2) ->
      match answer with
      | Rejected e' => e = e'
      | Json l =>
          success l = false /\
          e = Error ("Failed to get DNS records: " +++ errors l)
      end ->
      let tick := checkAndUpdateIP net config w in
      tick =
        (tickPrelude config (ip who) ++ [ConsoleError "❌ Fatal error:" (Some e)],
         w2, Exited 1) /\
      fetchCalls (traceOf tick) = [ipifyRequest; listRequest config] /\
      mainLoop net config (S n) w = tick).
Proof.
  split.
  - intros W net config w w1 e n Hip tick.
    pose proof (checkAndUpdateIP_no_address net config w w1 e Hip) as Htick.
    fold tick in Htick.
    split; [exact Htick |]. split.
    + rewrite Htick. reflexivity.
    + rewrite Htick. apply mainLoop_exits. exact Htick.
  - intros W net config w w1 w2 who answer e n Hip Hlist He tick.
    pose proof (checkAndUpdateIP_no_listing net config w w1 w2 who answer e
                  Hip Hlist He) as Htick.
    fold tick in Htick.
    split; [exact Htick |]. split.
    + rewrite Htick. reflexivity.
    + rewrite Htick. apply mainLoop_exits. exact Htick.
Qed.

Lemma failure_before_the_loop_exits_the_process_witness :
  outcomeOf (mainLoop Scripted.net Sample.config 3 Sample.offline) = Exited 1 /\
  outcomeOf (mainLoop Scripted.net Sample.config 3 Sample.refusedListing)
    = Exited 1.
Proof.
  split.
  - rewrite (proj2 (proj2
      (proj1 failure_before_the_loop_exits_the_process
         Scripted.Script Scripted.net Sample.config Sample.offline
         Sample.offline Scripted.fetchFailed 2 eq_refl))).
    reflexivity.
  - rewrite (proj2 (proj2
      (proj2 failure_before_the_loop_exits_the_process
         Scripted.Script Scripted.net Sample.config Sample.refusedListing
         _ _ Sample.here (Scripted.failed [] "[denied]")
         (Error "Failed to get DNS records: [denied]") 2
         eq_refl eq_refl (conj eq_refl eq_refl)))).
    reflexivity.
Defined.

Lemma filterAllowed_none (config : CloudflareConfig) (all : list DNSRecord) :
  (forall r, In r all -> ~ In (name r) (allowedRecords config)) ->
  filterAllowed config all = [].
Proof.
  intros Hnone.
  destruct (filterAllowed config all) as [| r rest] eqn:Hm; [reflexivity |].
  assert (Hin : In r (filterAllowed config all)) by (rewrite Hm; now left).
  apply filterAllowed_In in Hin. destruct Hin as [Hall Hname].
  now destruct (Hnone r Hall).
Qed.

(** C6.  When the listing succeeds and none of the listed records carries an
    allowed name, the tick logs the warning and returns: nothing is thrown,
    the process does not exit, the only requests are the address lookup and
    the listing (no record is read or written), and the main loop sleeps and
    runs the next tick. *)
Theorem no_match_ends_the_tick_quietly
    {W} (net : Network W) (config : CloudflareConfig)
    (w w1 w2 : W) (who : IpifyBody) (l : ApiResponse (list DNSRecord))
    (n : nat) :
  ipify net ipifyRequest w = (Json who, w1) ->
  listing net (listRequest config) w1 = (Json l, w2) ->
  success l = true ->
  (forall r, In r (result l) -> ~ In (name r) (allowedRecords config)) ->
  let tick := checkAndUpdateIP net config w in
  tick =
    (tickPrelude config (ip who) ++
       [ ConsoleLog (nl +++ "⚠️  No records matching allowed list found: "
                       +++ join ", " (allowedRecords config)) ],
     w2, Returned tt) /\
  fetchCalls (traceOf tick) = [ipifyRequest; listRequest config] /\
  updateCalls (traceOf tick) = [] /\
  mainLoop net config (S n) w =
    (traceOf tick ++ betweenTicks config ++ traceOf (mainLoop net config n w2),
     worldOf (mainLoop net config n w2),
     outcomeOf (mainLoop net config n w2)).
Proof.
  intros Hip Hlist Hok Hnone tick.
  pose proof (checkAndUpdateIP_listed net config w w1 w2 who l Hip Hlist Hok)
    as Htick.
  rewrite (filterAllowed_none config (result l) Hnone) in Htick.
  fold tick in Htick.
  split; [exact Htick |].
  split; [now rewrite Htick |].
  split; [now rewrite Htick |].
  rewrite Htick at 1. cbn [traceOf fst].
  apply mainLoop_continues. exact Htick.
Qed.

Lemma no_match_ends_the_tick_quietly_witness :
  outcomeOf (checkAndUpdateIP (Zone.net Sample.elsewhere) Sample.elsewhere
               Sample.zone) = Returned tt /\
  fetchCalls
    (traceOf (checkAndUpdateIP (Zone.net Sample.elsewhere) Sample.elsewhere
                Sample.zone))
    = [ipifyRequest; listRequest Sample.elsewhere].
Proof.
  pose proof (no_match_ends_the_tick_quietly (Zone.net Sample.elsewhere)
                Sample.elsewhere Sample.zone Sample.zone Sample.zone
                Sample.here Sample.listed 0 eq_refl eq_refl eq_refl) as H.
  cbv zeta in H.
  destruct H as [Htick [Hcalls _]].
  - intros r [<- | [<- | []]]; cbn; intuition discriminate.
  - split; [now rewrite Htick | exact Hcalls].
Defined.

Lemma recordUrl_not_listUrl (config : CloudflareConfig) (i : string) :
  (recordUrl config i =? listUrl config)%string = false.
Proof.
  apply String.eqb_neq. unfold recordUrl, listUrl. intros H.
  do 2 apply append_inj_l in H. discriminate H.
Qed.

(** Every request of an iteration goes to the URL of the iterated record. *)
Lemma checkRecord_calls {W} (net : Network W) (config : CloudflareConfig)
    (currentIP : string) (r : DNSRecord) (w : W) :
  Forall (fun req => url req = recordUrl config (id r))
    (fetchCalls (traceOf (checkRecord net config currentIP r w))).
Proof.
  unfold_body.
  destruct (detail net (getRequest config (id r)) w) as [[e | d1] w1];
    [repeat constructor |].
  destruct (success d1); cbn [negb]; [| repeat constructor].
  destruct (content (result d1) =? currentIP)%string; cbn [negb];
    [repeat constructor |].
  destruct (detail net (getRequest config (id r)) w1) as [[e | d2] w2];
    [repeat constructor |].
  destruct (success d2); cbn [negb]; [| repeat constructor].
  destruct (replace net _ w2) as [[e | d3] w3]; [repeat constructor |].
  destruct (success d3); repeat constructor.
Qed.

Lemma listingCalls_app (config : CloudflareConfig) (a b : Trace) :
  listingCalls config (a ++ b) = listingCalls config a ++ listingCalls config b.
Proof. unfold listingCalls. now rewrite fetchCalls_app, filter_app. Qed.

Lemma listingCalls_loop {W} (net : Network W) (config : CloudflareConfig)
    (currentIP : string) (rs : list DNSRecord) :
  forall w,
    listingCalls config
      (concat (map runTrace (recordRuns net config currentIP rs w))) = [].
Proof.
  induction rs as [| r rest IH]; intros w; [reflexivity |].
  cbn [recordRuns map concat runTrace snd].
  rewrite listingCalls_app, IH, app_nil_r.
  pose proof (checkRecord_calls net config currentIP r w) as Hcalls.
  unfold listingCalls.
  induction Hcalls as [| req reqs Hurl _ IHc]; [reflexivity |].
  cbn [filter]. now rewrite Hurl, recordUrl_not_listUrl.
Qed.

(** C7.  The listing operation sends one GET whose URL ends in
    [?per_page=100] and nothing else; it returns the [result] array of the
    answer when [success] is true and throws an error whose message carries
    the answer's [errors] when it is false.  A tick that obtains the listing
    sends that request once and iterates over the filtered [result] array of
    that answer. *)
Theorem listing_is_one_request_of_page_size_100 :
  (forall (W : Type) (net : Network W) (config : CloudflareConfig) (w : W),
      listRequest config =
        {| url := "https://api.cloudflare.com/client/v4/zones/"
                    +++ zoneId config +++ "/dns_records?per_page=100";
           method := GET;
           headers := [ ("Authorization", "Bearer " +++ apiToken config);
                        ("Content-Type", "application/json") ];
           body := None |} /\
      getAllDNSRecords net config w =
        match listing net (listRequest config) w with
        | (Rejected e, w') => ([Fetch (listRequest config)], w', Thrown e)
        | (Json data, w') =>
            ([Fetch (listRequest config)], w',
             if success data then Returned (result data)
             else Thrown (Error ("Failed to get DNS records: "
                                   +++ errors data)))
        end) /\
  (forall (W : Type) (net : Network W) (config : CloudflareConfig)
          (w w1 w2 : W) (who : IpifyBody) (l : ApiResponse (list DNSRecord)),
      ipify net ipifyRequest w = (Json who, w1) ->
      listing net (listRequest config) w1 = (Json l, w2) ->
      success l = true ->
      listingCalls config (traceOf (checkAndUpdateIP net config w))
        = [listRequest config] /\
      map (fun run => fst (fst run))
        (recordRuns net config (ip who) (filterAllowed config (result l)) w2)
        = filter (fun record => includes (allowedRecords config) (name record))
            (result l) /\
      updateCalls (traceOf (checkAndUpdateIP net config w)) =
        updateCalls
          (concat (map runTrace
                     (recordRuns net config (ip who)
                        (filterAllowed config (result l)) w2)))).
Proof.
  split.
  - intros W net config w. split; [reflexivity | apply getAllDNSRecords_run].
  - intros W net config w w1 w2 who l Hip Hlist Hok.
    split; [| split].
    + rewrite (checkAndUpdateIP_listed net config w w1 w2 who l Hip Hlist Hok).
      assert (Hprelude :
        listingCalls config (tickPrelude config (ip who)) = [listRequest config]).
      { unfold listingCalls, tickPrelude. cbn [fetchCalls filter].
        change (url ipifyRequest =? listUrl config)%string with false.
        change (url (listRequest config)) with (listUrl config).
        now rewrite String.eqb_refl. }
      destruct (filterAllowed config (result l)) as [| r rest].
      * cbn [traceOf fst]. now rewrite listingCalls_app, Hprelude.
      * cbn [traceOf fst]. rewrite listingCalls_app, Hprelude.
        match goal with
        | |- _ ++ listingCalls _ (?x :: ?t ++ ?y) = _ =>
            change (x :: t ++ y) with ([x] ++ t ++ y)
        end.
        now rewrite !listingCalls_app, listingCalls_loop.
    + apply recordRuns_records.
    + exact (updateCalls_tick net config w w1 w2 who l Hip Hlist Hok).
Qed.

Lemma listing_is_one_request_of_page_size_100_witness :
  listingCalls Sample.config
    (traceOf (checkAndUpdateIP (Zone.net Sample.config) Sample.config
                Sample.zone))
  = [ {| url := "https://api.cloudflare.com/client/v4/zones/zone/dns_records?per_page=100";
         method := GET;
         headers := [ ("Authorization", "Bearer token");
                      ("Content-Type", "application/json") ];
         body := None |} ].
Proof.
  exact (proj1
    (proj2 listing_is_one_request_of_page_size_100
       Zone.State (Zone.net Sample.config) Sample.config
       Sample.zone Sample.zone Sample.zone Sample.here Sample.listed
       eq_refl eq_refl eq_refl)).
Defined.

Lemma includes_Permutation (xs ys : list string) (x : string) :
  Permutation xs ys -> includes xs x = includes ys x.
Proof.
  intros Hperm.
  destruct (includes xs x) eqn:Hx, (includes ys x) eqn:Hy; try reflexivity.
  - apply includes_In in Hx. apply (Permutation_in _ Hperm) in Hx.
    apply includes_In in Hx. congruence.
  - apply includes_In in Hy. apply (Permutation_in _ (Permutation_sym Hperm)) in Hy.
    apply includes_In in Hy. congruence.
Qed.

(** Two configurations with the same credential and zone whose allow-lists
    are permutations of each other: the ticks send the same requests, leave
    the same world and end the same way, and their traces differ at most in
    the two lines that print the allow-list. *)
Lemma tick_permuted {W} (net : Network W) (token zone : string)
    (allow allow' : list string) (interval interval' : number) (w : W) :
  Permutation allow allow' ->
  let config :=
    {| apiToken := token; zoneId := zone; allowedRecords := allow;
       checkIntervalMinutes := interval |} in
  let config' :=
    {| apiToken := token; zoneId := zone; allowedRecords := allow';
       checkIntervalMinutes := interval' |} in
  let tick := checkAndUpdateIP net config w in
  let tick' := checkAndUpdateIP net config' w in
  (forall all, filterAllowed config' all = filterAllowed config all) /\
  fetchCalls (traceOf tick') = fetchCalls (traceOf tick) /\
  worldOf tick' = worldOf tick /\
  outcomeOf tick' = outcomeOf tick /\
  (skipn 2 (traceOf tick') = skipn 2 (traceOf tick) \/
   exists common,
     skipn 2 (traceOf tick) = common ++ [noMatchLine config] /\
     skipn 2 (traceOf tick') = common ++ [noMatchLine config']).
Proof.
  intros Hperm config config' tick tick'.
  assert (Hfilter : forall all, filterAllowed config' all = filterAllowed config all).
  { intros all. unfold filterAllowed. apply filter_ext. intros r.
    symmetry. apply includes_Permutation. exact Hperm. }
  split; [exact Hfilter |].
  unfold tick, tick'.
  destruct (ipify net ipifyRequest w) as [[e | who] w1] eqn:Hip.
  - rewrite (checkAndUpdateIP_no_address net config w w1 e Hip),
      (checkAndUpdateIP_no_address net config' w w1 e Hip).
    repeat split. now left.
  - destruct (listing net (listRequest config) w1) as [answer w2] eqn:Hlist.
    assert (Hlist' : listing net (listRequest config') w1 = (answer, w2))
      by exact Hlist.
    destruct answer as [e | l]; [| destruct (success l) eqn:Hok].
    + rewrite (checkAndUpdateIP_no_listing net config w w1 w2 who _ e
                 Hip Hlist eq_refl),
        (checkAndUpdateIP_no_listing net config' w w1 w2 who _ e
           Hip Hlist' eq_refl).
      repeat split. now left.
    + rewrite (checkAndUpdateIP_listed net config w w1 w2 who l Hip Hlist Hok),
        (checkAndUpdateIP_listed net config' w w1 w2 who l Hip Hlist' Hok).
      rewrite Hfilter.
      destruct (filterAllowed config (result l)) as [| r rest].
      * repeat split. right.
        exists (skipn 2 (tickPrelude config (ip who))). now split.
      * repeat split. now left.
    + rewrite (checkAndUpdateIP_no_listing net config w w1 w2 who _ _
                 Hip Hlist (conj Hok eq_refl)),
        (checkAndUpdateIP_no_listing net config' w w1 w2 who _ _
           Hip Hlist' (conj Hok eq_refl)).
      repeat split. now left.
Qed.

(** C8 (amended).  Permuting the allow-list changes neither which records
    are selected nor the order in which they are processed: the filter
    returns the same records in the order of the provider's listing, every
    iteration of the loop is the same, and the ticks send the same requests
    in the same order, leave the same world and end the same way.  Only the
    two console lines that print the allow-list itself can differ. *)
Theorem allow_list_order_affects_neither_matching_nor_processing
    {W} (net : Network W) (config config' : CloudflareConfig) (w : W) :
  apiToken config' = apiToken config ->
  zoneId config' = zoneId config ->
  Permutation (allowedRecords config) (allowedRecords config') ->
  let tick := checkAndUpdateIP net config w in
  let tick' := checkAndUpdateIP net config' w in
  (forall all, filterAllowed config' all = filterAllowed config all) /\
  (forall pre post,
      filterAllowed config (pre ++ post) =
      filterAllowed config pre ++ filterAllowed config post) /\
  (forall address rs w0,
      recordRuns net config' address rs w0 = recordRuns net config address rs w0) /\
  fetchCalls (traceOf tick') = fetchCalls (traceOf tick) /\
  worldOf tick' = worldOf tick /\
  outcomeOf tick' = outcomeOf tick /\
  (skipn 2 (traceOf tick') = skipn 2 (traceOf tick) \/
   exists common,
     skipn 2 (traceOf tick) = common ++ [noMatchLine config] /\
     skipn 2 (traceOf tick') = common ++ [noMatchLine config']).
Proof.
  destruct config as [token zone allow interval].
  destruct config' as [token' zone' allow' interval'].
  cbn [apiToken zoneId allowedRecords].
  intros -> -> Hperm.
  destruct (tick_permuted net token zone allow allow' interval interval' w Hperm)
    as [Hfilter [Hcalls [Hworld [Hout Htrace]]]].
  split; [exact Hfilter |].
  split; [intros; apply filter_app |].
  split; [| now repeat split].
  intros address rs. induction rs as [| r rest IH]; intros w0; [reflexivity |].
  cbn [recordRuns]. now rewrite IH.
Qed.

Lemma allow_list_order_affects_neither_matching_nor_processing_witness :
  fetchCalls
    (traceOf (checkAndUpdateIP (Zone.net Sample.both) Sample.bothReversed
                Sample.zone)) =
  fetchCalls
    (traceOf (checkAndUpdateIP (Zone.net Sample.both) Sample.both Sample.zone)).
Proof.
  refine (proj1 (proj2 (proj2 (proj2
    (allow_list_order_affects_neither_matching_nor_processing
       (Zone.net Sample.both) Sample.both Sample.bothReversed Sample.zone
       eq_refl eq_refl _))))).
  apply perm_swap.
Defined.

(** C8 as stated fails.  With the allow-list [b.example.com; a.example.com]
    and the provider listing a.example.com before b.example.com, the records
    are updated in the listing's order, a then b, which is not the order of
    the allow-list; the trace is, from its third event on, the one obtained
    with the allow-list [a.example.com; b.example.com].  No permutation of an
    allow-list changes the sequence of requests of a tick. *)
Lemma allow_list_order_counterexample :
  let run := fun config =>
    traceOf (checkAndUpdateIP (Zone.net config) config Sample.zone) in
  Permutation (allowedRecords Sample.both) (allowedRecords Sample.bothReversed) /\
  allowedRecords Sample.bothReversed = ["b.example.com"; "a.example.com"] /\
  updatedNames (run Sample.bothReversed) = ["a.example.com"; "b.example.com"] /\
  updatedNames (run Sample.both) = ["a.example.com"; "b.example.com"] /\
  skipn 2 (run Sample.bothReversed) = skipn 2 (run Sample.both) /\
  ~ (exists (config config' : CloudflareConfig) (z : Zone.State),
        apiToken config' = apiToken config /\
        zoneId config' = zoneId config /\
        Permutation (allowedRecords config) (allowedRecords config') /\
        fetchCalls (traceOf (checkAndUpdateIP (Zone.net config') config' z)) <>
        fetchCalls (traceOf (checkAndUpdateIP (Zone.net config) config z))).
Proof.
  intros run.
  split; [apply perm_swap |].
  split; [reflexivity |].
  split; [reflexivity |].
  split; [reflexivity |].
  split; [reflexivity |].
  intros [config [config' [z [Htoken [Hzone [Hperm Hdiff]]]]]].
  destruct config as [token zone allow interval].
  destruct config' as [token' zone' allow' interval'].
  cbn [apiToken zoneId allowedRecords] in *. subst token' zone'.
  apply Hdiff.
  exact (proj1 (proj2
    (tick_permuted
       (Zone.net {| apiToken := token; zoneId := zone; allowedRecords := allow;
                    checkIntervalMinutes := interval |})
       token zone allow allow' interval interval' z Hperm))).
Qed.

(** An iteration against the store for a listing entry that is out of date:
    the record stored under the entry's identifier may since have been
    renamed or retyped. *)
Lemma zone_checkRecord_stale (config : CloudflareConfig) (address : string)
    (entry stored : DNSRecord) (z : Zone.State) :
  NoDup (map id (Zone.records z)) ->
  In stored (Zone.records z) ->
  id stored = id entry ->
  content stored <> address ->
  worldOf (checkRecord (Zone.net config) config address entry z) =
  {| Zone.publicIP := Zone.publicIP z;
     Zone.records :=
       map (fun y =>
              if (id stored =? id y)%string
              then {| id := id stored;
                      name := name entry;
                      type := type entry;
                      content := address;
                      proxied := proxied stored;
                      ttl := ttl stored |}
              else y)
         (Zone.records z) |}.
Proof.
  intros Hnd Hin Hid Hdiff.
  assert (Hget : detail (Zone.net config) (getRequest config (id entry)) z
                 = (Json (Zone.found stored), z)).
  { cbn [detail Zone.net]. unfold getRequest.
    now rewrite (find_addressed config (id entry) GET None _ stored Hnd Hin Hid). }
  rewrite (checkRecord_update (Zone.net config) config address entry z z z
             (Zone.found stored) (Zone.found stored)
             Hget eq_refl Hdiff Hget eq_refl).
  cbv zeta. cbn [Zone.found result].
  cbn [replace Zone.net]. unfold putRequest at 1 2. cbn [body].
  rewrite (find_addressed config (id entry) PUT _ _ stored Hnd Hin Hid).
  cbn [success worldOf fst snd]. f_equal.
  transitivity
    (map (fun y => if (id stored =? id y)%string
                   then Zone.overwrite (updateBody entry address stored) y
                   else y) (Zone.records z)).
  - apply map_ext. intros y. unfold putRequest.
    now rewrite addressed_get, Hid.
  - exact (map_on_id
             (Zone.overwrite (updateBody entry address stored))
             (fun _ => {| id := id stored; name := name entry;
                          type := type entry; content := address;
                          proxied := proxied stored; ttl := ttl stored |})
             (Zone.records z) stored Hnd Hin eq_refl).
Qed.

(** C9.  (a) In an iteration that reads another content and obtains its
    snapshot, the body of the PUT takes [type] and [name] from the entry of
    the zone listing being iterated, [content] from the discovered address,
    and only [ttl] and [proxied] from the snapshot, whatever name and type the
    snapshot carries.  (b) Against a provider that stores what is written,
    with unique identifiers: if the record was renamed or retyped after the
    listing, the iteration puts the listed name and type back, while the
    stored ttl and proxied are kept. *)
Theorem write_takes_name_and_type_from_the_listing :
  (forall (W : Type) (net : Network W) (config : CloudflareConfig)
          (w w1 w2 wr wr1 wr2 : W) (who : IpifyBody)
          (l : ApiResponse (list DNSRecord)) (r : DNSRecord) (tr : Trace)
          (d cur : ApiResponse DNSRecord),
      ipify net ipifyRequest w = (Json who, w1) ->
      listing net (listRequest config) w1 = (Json l, w2) ->
      success l = true ->
      In (r, wr, tr)
        (recordRuns net config (ip who) (filterAllowed config (result l)) w2) ->
      detail net (getRequest config (id r)) wr = (Json d, wr1) ->
      success d = true ->
      content (result d) <> ip who ->
      detail net (getRequest config (id r)) wr1 = (Json cur, wr2) ->
      success cur = true ->
      In r (result l) /\
      map body (updateCalls tr) =
        [ Some {| body_type := type r;
                  body_name := name r;
                  body_content := ip who;
                  body_ttl := ttl (result cur);
                  body_proxied := proxied (result cur) |} ]) /\
  (forall (config : CloudflareConfig) (address : string)
          (entry stored : DNSRecord) (z : Zone.State),
      NoDup (map id (Zone.records z)) ->
      In stored (Zone.records z) ->
      id stored = id entry ->
      content stored <> address ->
      worldOf (checkRecord (Zone.net config) config address entry z) =
      {| Zone.publicIP := Zone.publicIP z;
         Zone.records :=
           map (fun y =>
                  if (id stored =? id y)%string
                  then {| id := id stored;
                          name := name entry;
                          type := type entry;
                          content := address;
                          proxied := proxied stored;
                          ttl := ttl stored |}
                  else y)
             (Zone.records z) |}).
Proof.
  split.
  - intros W net config w w1 w2 wr wr1 wr2 who l r tr d cur
      Hip Hlist Hok Hin Hget Hd Hdiff Hget2 Hcur.
    apply recordRuns_In in Hin. destruct Hin as [Hr ->].
    split.
    + apply filterAllowed_In in Hr. exact (proj1 Hr).
    + now rewrite (updateCalls_update net config (ip who) r wr wr1 wr2 d cur
                     Hget Hd Hdiff Hget2 Hcur).
  - exact zone_checkRecord_stale.
Qed.

Lemma write_takes_name_and_type_from_the_listing_witness :
  worldOf (checkRecord (Zone.net Sample.config) Sample.config "2.2.2.2"
             Sample.recA Sample.renamed) =
  {| Zone.publicIP := "2.2.2.2";
     Zone.records :=
       [ {| id := "id-a"; name := "a.example.com"; type := "A";
            content := "2.2.2.2"; proxied := false; ttl := 60 |};
         Sample.recB ] |} /\
  map body
    (updateCalls
       (traceOf (checkRecord (Zone.net Sample.config) Sample.config "2.2.2.2"
                   Sample.recA Sample.zone))) =
  [ Some {| body_type := "A"; body_name := "a.example.com";
            body_content := "2.2.2.2"; body_ttl := 300;
            body_proxied := true |} ].
Proof.
  split.
  - refine (proj2 write_takes_name_and_type_from_the_listing
              Sample.config "2.2.2.2" Sample.recA
              {| id := "id-a"; name := "renamed.example.com"; type := "AAAA";
                 content := "1.1.1.1"; proxied := false; ttl := 60 |}
              Sample.renamed _ _ _ _).
    + repeat constructor; cbn; intuition discriminate.
    + left. reflexivity.
    + reflexivity.
    + discriminate.
  - refine (proj2
      (proj1 write_takes_name_and_type_from_the_listing
         Zone.State (Zone.net Sample.config) Sample.config
         Sample.zone Sample.zone Sample.zone
         Sample.zone Sample.zone Sample.zone
         Sample.here Sample.listed Sample.recA _
         (Zone.found Sample.recA) (Zone.found Sample.recA)
         _ _ _ _ _ _ _ _ _)).
    + reflexivity.
    + reflexivity.
    + reflexivity.
    + left. reflexivity.
    + reflexivity.
    + reflexivity.
    + discriminate.
    + reflexivity.
    + reflexivity.
Defined.

(** The three checks of lines 29-45, in order. *)
Lemma validateConfig_run {W} (config : CloudflareConfig) (w : W) :
  validateConfig config w =
  if (apiToken config =? EmptyString)%string
  then
    ([ ConsoleError
         "Error: CLOUDFLARE_API_TOKEN environment variable is required" None ],
     w, Exited 1)
  else if (zoneId config =? EmptyString)%string
  then
    ([ ConsoleError
         "Error: CLOUDFLARE_ZONE_ID environment variable is required" None ],
     w, Exited 1)
  else
    match allowedRecords config with
    | [] =>
        ([ ConsoleError
             "Error: CLOUDFLARE_ALLOWED_RECORDS environment variable is required"
             None;
           ConsoleError
             ("Format: [" +++ dq +++ "home.thoor.me" +++ dq +++ "," +++ dq
                +++ "*.home.thoor.me" +++ dq +++ "]") None ],
         w, Exited 1)
    | _ :: _ => ([], w, Returned tt)
    end.
Proof.
  unfold validateConfig, bind, console_error, emit, process_exit, ret.
  destruct (apiToken config =? EmptyString)%string; [reflexivity |].
  destruct (zoneId config =? EmptyString)%string; [reflexivity |].
  destruct (allowedRecords config); reflexivity.
Qed.

(** C10.  (a) Validation consists of three checks, on the credential, the
    zone identifier and the allow-list, each exiting with code 1 when the
    field is empty; the interval is not looked at.  (b) Whatever the interval
    variable holds, what loading and validating the configuration do is the
    same.  (c) When the three fields are non-empty, the process prints its
    banner and enters the loop with the interval [parseInt] yields, for every
    value of the interval variable.  (d) The interval defaults to 5 when the
    variable is unset or empty; [parseInt] yields NaN on text that does not
    start with a number; zero and negative numbers are passed on as they are,
    and so is the delay computed from them. *)
Theorem interval_is_never_validated :
  (forall (W : Type) (config : CloudflareConfig) (w : W),
      validateConfig config w =
      if (apiToken config =? EmptyString)%string
      then
        ([ ConsoleError
             "Error: CLOUDFLARE_API_TOKEN environment variable is required"
             None ],
         w, Exited 1)
      else if (zoneId config =? EmptyString)%string
      then
        ([ ConsoleError
             "Error: CLOUDFLARE_ZONE_ID environment variable is required"
             None ],
         w, Exited 1)
      else
        match allowedRecords config with
        | [] =>
            ([ ConsoleError
                 "Error: CLOUDFLARE_ALLOWED_RECORDS environment variable is required"
                 None;
               ConsoleError
                 ("Format: [" +++ dq +++ "home.thoor.me" +++ dq +++ "," +++ dq
                    +++ "*.home.thoor.me" +++ dq +++ "]") None ],
             w, Exited 1)
        | _ :: _ => ([], w, Returned tt)
        end) /\
  (forall (W : Type) (JSON_parse : string -> JsError + list string)
          (env : ProcessEnv) (interval : option string) (w : W),
      (config <- loadConfig JSON_parse (withInterval env interval) ;;
       validateConfig config) w =
      (config <- loadConfig JSON_parse env ;; validateConfig config) w) /\
  (forall (W : Type) (net : Network W)
          (JSON_parse : string -> JsError + list string)
          (env : ProcessEnv) (interval : option string)
          (allowed : list string) (n : nat) (w : W),
      orElse (CLOUDFLARE_API_TOKEN env) EmptyString <> EmptyString ->
      orElse (CLOUDFLARE_ZONE_ID env) EmptyString <> EmptyString ->
      JSON_parse (orElse (CLOUDFLARE_ALLOWED_RECORDS env) "[]") = inr allowed ->
      allowed <> [] ->
      let config :=
        {| apiToken := orElse (CLOUDFLARE_API_TOKEN env) EmptyString;
           zoneId := orElse (CLOUDFLARE_ZONE_ID env) EmptyString;
           allowedRecords := allowed;
           checkIntervalMinutes := parseInt10 (orElse interval "5") |} in
      main net JSON_parse (withInterval env interval) n w =
      (ConsoleLog (nl +++ "🔄 Running checks every "
                     +++ Number_toString (parseInt10 (orElse interval "5"))
                     +++ " minute(s)") ::
       ConsoleLog ("Press Ctrl+C to stop" +++ nl) ::
       traceOf (mainLoop net config n w),
       worldOf (mainLoop net config n w),
       outcomeOf (mainLoop net config n w))) /\
  (parseInt10 (orElse None "5") = Num 5 /\
   parseInt10 (orElse (Some EmptyString) "5") = Num 5 /\
   parseInt10 "soon" = NaN /\
   parseInt10 "-" = NaN /\
   parseInt10 "0" = Num 0 /\
   parseInt10 "-3" = Num (-3) /\
   number_mul (number_mul NaN (Num 60)) (Num 1000) = NaN /\
   number_mul (number_mul (Num (-3)) (Num 60)) (Num 1000) = Num (-180000)).
Proof.
  split; [intros; apply validateConfig_run |].
  split; [| split].
  - intros W JSON_parse env interval w.
    unfold bind, loadConfig, withInterval.
    cbn [CLOUDFLARE_API_TOKEN CLOUDFLARE_ZONE_ID CLOUDFLARE_ALLOWED_RECORDS
         CHECK_INTERVAL_MINUTES].
    destruct (JSON_parse (orElse (CLOUDFLARE_ALLOWED_RECORDS env) "[]"))
      as [e | allowed]; [reflexivity |].
    unfold ret. rewrite !validateConfig_run. reflexivity.
  - intros W net JSON_parse env interval allowed n w Htoken Hzone Hparse Hne
      config.
    unfold main. unfold bind at 1. unfold loadConfig, withInterval.
    cbn [CLOUDFLARE_API_TOKEN CLOUDFLARE_ZONE_ID CLOUDFLARE_ALLOWED_RECORDS
         CHECK_INTERVAL_MINUTES].
    rewrite Hparse. unfold ret. fold config.
    unfold bind at 1. rewrite validateConfig_run.
    cbn [apiToken zoneId allowedRecords config].
    apply String.eqb_neq in Htoken, Hzone. rewrite Htoken, Hzone.
    destruct allowed as [| a rest]; [contradiction |].
    unfold bind, console_log, emit.
    destruct (mainLoop net _ n w) as [[t w'] o]. reflexivity.
  - repeat split; reflexivity.
Qed.

Lemma interval_is_never_validated_witness :
  let run :=
    main (Zone.net Sample.config) Sample.parse (Sample.env (Some "soon")) 1
      Sample.zone in
  outcomeOf run = Returned tt /\
  In (ConsoleLog (nl +++ "🔄 Running checks every NaN minute(s)")) (traceOf run) /\
  In (Fetch ipifyRequest) (traceOf run) /\
  In (SetTimeout NaN) (traceOf run).
Proof.
  intros run.
  pose proof (proj1 (proj2 (proj2 interval_is_never_validated))
                Zone.State (Zone.net Sample.config) Sample.parse
                (Sample.env None) (Some "soon") ["a.example.com"] 1
                Sample.zone) as H.
  cbv zeta in H.
  change (withInterval (Sample.env None) (Some "soon"))
    with (Sample.env (Some "soon")) in H.
  unfold run. rewrite H.
  - split; [reflexivity |]. split; [left; reflexivity |].
    split; vm_compute; tauto.
  - discriminate.
  - discriminate.
  - reflexivity.
  - discriminate.
Defined.

(* ------------------------------------------------------------------ *)
(** ** Further properties of the tick *)

(** How a tick ends is decided by the address lookup and the zone listing
    alone. *)
Lemma checkAndUpdateIP_outcome {W} (net : Network W)
    (config : CloudflareConfig) (w : W) :
  outcomeOf (checkAndUpdateIP net config w) =
  match ipify net ipifyRequest w with
  | (Rejected _, _) => Exited 1
  | (Json _, w1) =>
      match listing net (listRequest config) w1 with
      | (Rejected _, _) => Exited 1
      | (Json l, _) => if success l then Returned tt else Exited 1
      end
  end.
Proof.
  destruct (ipify net ipifyRequest w) as [[e | who] w1] eqn:Hip.
  - now rewrite (checkAndUpdateIP_no_address net config w w1 e Hip).
  - destruct (listing net (listRequest config) w1) as [[e | l] w2] eqn:Hlist;
      [| destruct (success l) eqn:Hok].
    + now rewrite (checkAndUpdateIP_no_listing net config w w1 w2 who _ e
                     Hip Hlist eq_refl).
    + rewrite (checkAndUpdateIP_listed net config w w1 w2 who l Hip Hlist Hok).
      now destruct (filterAllowed config (result l)).
    + now rewrite (checkAndUpdateIP_no_listing net config w w1 w2 who _ _
                     Hip Hlist (conj Hok eq_refl)).
Qed.

(** X1.  Whatever the network answers, a tick either returns or exits the
    process with code 1; it never lets an exception escape.  It exits exactly
    when the address lookup rejects or the zone listing rejects or answers
    [success: false]: what happens to the individual records has no
    influence on how the tick ends. *)
Theorem tick_returns_or_exits_with_1
    {W} (net : Network W) (config : CloudflareConfig) (w : W) :
  (outcomeOf (checkAndUpdateIP net config w) = Returned tt \/
   outcomeOf (checkAndUpdateIP net config w) = Exited 1) /\
  (outcomeOf (checkAndUpdateIP net config w) = Returned tt <->
   exists who w1 l w2,
     ipify net ipifyRequest w = (Json who, w1) /\
     listing net (listRequest config) w1 = (Json l, w2) /\
     success l = true).
Proof.
  rewrite checkAndUpdateIP_outcome.
  destruct (ipify net ipifyRequest w) as [[e | who] w1].
  - split; [now right |]. split; [discriminate |].
    intros [who [w1' [l [w2 [Hip _]]]]]. discriminate Hip.
  - destruct (listing net (listRequest config) w1) as [[e | l] w2] eqn:Hlist;
      [| destruct (success l) eqn:Hok].
    + split; [now right |]. split; [discriminate |].
      intros [who' [w1' [l [w2' [Hip [Hl _]]]]]].
      injection Hip as <- <-. rewrite Hlist in Hl. discriminate Hl.
    + split; [now left |]. split; [| reflexivity].
      intros _. exists who, w1, l, w2. now repeat split.
    + split; [now right |]. split; [discriminate |].
      intros [who' [w1' [l' [w2' [Hip [Hl Hs]]]]]].
      injection Hip as <- <-. rewrite Hlist in Hl.
      injection Hl as <- <-. congruence.
Qed.

Lemma zoneCall_listRequest (config : CloudflareConfig) :
  zoneCall config (listRequest config).
Proof. split; [reflexivity |]. now exists "?per_page=100". Qed.

Lemma zoneCall_getRequest (config : CloudflareConfig) (i : string) :
  zoneCall config (getRequest config i).
Proof. split; [reflexivity |]. now exists ("/" +++ i). Qed.

Lemma zoneCall_putRequest (config : CloudflareConfig) (i : string) (b : PutBody) :
  zoneCall config (putRequest config i b).
Proof. split; [reflexivity |]. now exists ("/" +++ i). Qed.

(** The requests of an iteration: between one and three, all to the zone,
    at most one of them a PUT. *)
Lemma checkRecord_requests {W} (net : Network W) (config : CloudflareConfig)
    (currentIP : string) (r : DNSRecord) (w : W) :
  let calls := fetchCalls (traceOf (checkRecord net config currentIP r w)) in
  Forall (zoneCall config) calls /\
  1 <= length calls <= 3 /\
  length (filter isPut calls) <= 1.
Proof.
  pose proof (zoneCall_getRequest config (id r)) as Hg.
  pose proof (zoneCall_putRequest config (id r)) as Hp.
  assert (Hone :
    Forall (zoneCall config) [getRequest config (id r)] /\
    1 <= 1 <= 3 /\ 0 <= 1) by (split; [repeat (apply Forall_cons; [assumption |]); apply Forall_nil | lia]).
  assert (Htwo :
    Forall (zoneCall config) [getRequest config (id r); getRequest config (id r)] /\
    1 <= 2 <= 3 /\ 0 <= 1) by (split; [repeat (apply Forall_cons; [assumption |]); apply Forall_nil | lia]).
  assert (Hthree : forall b,
    Forall (zoneCall config)
      [getRequest config (id r); getRequest config (id r);
       putRequest config (id r) b] /\
    1 <= 3 <= 3 /\ 1 <= 1).
  { intros b. split; [| lia]. repeat (apply Forall_cons; [easy |]).
    apply Forall_nil. }
  unfold_body.
  destruct (detail net (getRequest config (id r)) w) as [[e | d1] w1];
    [exact Hone |].
  destruct (success d1); cbn [negb]; [| exact Hone].
  destruct (content (result d1) =? currentIP)%string; cbn [negb];
    [exact Hone |].
  destruct (detail net (getRequest config (id r)) w1) as [[e | d2] w2];
    [exact Htwo |].
  destruct (success d2); cbn [negb]; [| exact Htwo].
  destruct (replace net _ w2) as [[e | d3] w3]; [apply Hthree |].
  destruct (success d3); apply Hthree.
Qed.

Lemma loop_requests {W} (net : Network W) (config : CloudflareConfig)
    (currentIP : string) (rs : list DNSRecord) :
  forall w,
    let calls :=
      fetchCalls (concat (map runTrace (recordRuns net config currentIP rs w))) in
    Forall (zoneCall config) calls /\
    length rs <= length calls <= 3 * length rs /\
    length (filter isPut calls) <= length rs.
Proof.
  induction rs as [| r rest IH]; intros w.
  - cbn. repeat split; constructor.
  - cbn [recordRuns map concat runTrace snd]. cbv zeta.
    rewrite fetchCalls_app, filter_app, !length_app.
    destruct (checkRecord_requests net config currentIP r w)
      as [Hzone [Hcount Hput]].
    destruct (IH (worldOf (checkRecord net config currentIP r w)))
      as [Hzone' [Hcount' Hput']].
    split; [now apply Forall_app |].
    cbn [length]. lia.
Qed.

(** X2.  Of the requests a tick sends, the first is the address lookup, sent
    without any header; every other one goes to the [dns_records] of the
    configured zone and carries the bearer header.  The credential is thus
    never sent to the address service, and no third host is contacted. *)
Theorem tick_sends_one_bare_lookup_then_zone_requests
    {W} (net : Network W) (config : CloudflareConfig) (w : W) :
  exists rest,
    fetchCalls (traceOf (checkAndUpdateIP net config w)) = ipifyRequest :: rest /\
    ipifyRequest =
      {| url := "https://api.ipify.org?format=json"; method := GET;
         headers := []; body := None |} /\
    Forall (zoneCall config) rest.
Proof.
  destruct (ipify net ipifyRequest w) as [[e | who] w1] eqn:Hip.
  - rewrite (checkAndUpdateIP_no_address net config w w1 e Hip).
    exists []. repeat split. constructor.
  - destruct (listing net (listRequest config) w1) as [answer w2] eqn:Hlist.
    assert (Hfail : forall e,
      fetchCalls (tickPrelude config (ip who) ++ [fatalLine e]) =
      [ipifyRequest; listRequest config]) by reflexivity.
    destruct answer as [e | l]; [| destruct (success l) eqn:Hok].
    + rewrite (checkAndUpdateIP_no_listing net config w w1 w2 who _ e
                 Hip Hlist eq_refl).
      exists [listRequest config]. repeat split.
      repeat constructor; apply zoneCall_listRequest.
    + rewrite (checkAndUpdateIP_listed net config w w1 w2 who l Hip Hlist Hok).
      destruct (filterAllowed config (result l)) as [| r rest] eqn:Hm.
      * exists [listRequest config]. repeat split.
        repeat constructor; apply zoneCall_listRequest.
      * cbn [traceOf fst]. rewrite fetchCalls_app.
        exists (listRequest config ::
                fetchCalls
                  (concat (map runTrace
                             (recordRuns net config (ip who) (r :: rest) w2)))).
        split; [| split; [reflexivity |]].
        -- change (fetchCalls (tickPrelude config (ip who)))
             with [ipifyRequest; listRequest config].
           cbn [app fetchCalls foundLine]. rewrite fetchCalls_app.
           cbn [fetchCalls completedLine]. now rewrite app_nil_r.
        -- constructor; [apply zoneCall_listRequest |].
           apply (loop_requests net config (ip who) (r :: rest) w2).
    + rewrite (checkAndUpdateIP_no_listing net config w w1 w2 who _ _
                 Hip Hlist (conj Hok eq_refl)).
      exists [listRequest config]. repeat split.
      repeat constructor; apply zoneCall_listRequest.
Qed.

(** X4.  A tick that obtains the address and the listing and matches [n]
    records sends between [2 + n] and [2 + 3 * n] requests (the two lookups,
    then one to three per record), of which at most [n] are PUTs. *)
Theorem tick_request_budget
    {W} (net : Network W) (config : CloudflareConfig) (w w1 w2 : W)
    (who : IpifyBody) (l : ApiResponse (list DNSRecord)) :
  ipify net ipifyRequest w = (Json who, w1) ->
  listing net (listRequest config) w1 = (Json l, w2) ->
  success l = true ->
  let n := length (filterAllowed config (result l)) in
  let calls := fetchCalls (traceOf (checkAndUpdateIP net config w)) in
  2 + n <= length calls <= 2 + 3 * n /\
  length (updateCalls (traceOf (checkAndUpdateIP net config w))) <= n.
Proof.
  intros Hip Hlist Hok n calls.
  destruct (loop_requests net config (ip who)
              (filterAllowed config (result l)) w2) as [_ [Hcount Hput]].
  split.
  - unfold calls.
    rewrite (checkAndUpdateIP_listed net config w w1 w2 who l Hip Hlist Hok).
    fold n in Hcount.
    destruct (filterAllowed config (result l)) as [| r rest] eqn:Hm.
    + cbn in *. subst n. cbn. lia.
    + cbn [traceOf fst]. rewrite fetchCalls_app.
      change (fetchCalls (tickPrelude config (ip who)))
        with [ipifyRequest; listRequest config].
      cbn [app fetchCalls foundLine length]. rewrite fetchCalls_app.
      cbn [fetchCalls completedLine]. rewrite app_nil_r. lia.
  - rewrite (updateCalls_tick net config w w1 w2 who l Hip Hlist Hok).
    exact Hput.
Qed.

Lemma tick_request_budget_witness :
  length (fetchCalls
            (traceOf (checkAndUpdateIP (Zone.net Sample.both) Sample.both
                        Sample.zone))) = 8 /\
  2 + 2 <= 8 <= 2 + 3 * 2.
Proof.
  split; [reflexivity |].
  exact (proj1
    (tick_request_budget (Zone.net Sample.both) Sample.both
       Sample.zone Sample.zone Sample.zone Sample.here Sample.listed
       eq_refl eq_refl eq_refl)).
Defined.

Lemma updateCalls_runs_In {W} (runs : list (DNSRecord * W * Trace))
    (req : Request) :
  In req (updateCalls (concat (map runTrace runs))) ->
  exists run, In run runs /\ In req (updateCalls (runTrace run)).
Proof.
  induction runs as [| run rest IH]; intros Hin; [contradiction |].
  cbn [map concat] in Hin. rewrite updateCalls_app in Hin.
  apply in_app_or in Hin. destruct Hin as [Hin | Hin].
  - exists run. split; [now left | exact Hin].
  - destruct (IH Hin) as [run' [Hrun Hreq]].
    exists run'. split; [now right | exact Hreq].
Qed.

(** X3.  Whatever the network answers, every PUT of a tick is for a record
    that the zone listing of that tick returned and whose name is in the
    allow-list; it goes to that record's URL, with the bearer header, and its
    body carries the record's listed name and type and, as content, the
    address the lookup of that tick returned.  No other record is ever
    written, and nothing is written when either lookup fails. *)
Theorem tick_writes_only_listed_allowed_records
    {W} (net : Network W) (config : CloudflareConfig) (w : W) (req : Request) :
  In req (updateCalls (traceOf (checkAndUpdateIP net config w))) ->
  exists who w1 l w2 r snapshot,
    ipify net ipifyRequest w = (Json who, w1) /\
    listing net (listRequest config) w1 = (Json l, w2) /\
    success l = true /\
    In r (result l) /\
    In (name r) (allowedRecords config) /\
    req =
      {| url := recordUrl config (id r);
         method := PUT;
         headers := authHeaders config;
         body := Some {| body_type := type r;
                         body_name := name r;
                         body_content := ip who;
                         body_ttl := ttl snapshot;
                         body_proxied := proxied snapshot |} |}.
Proof.
  intros Hin.
  destruct (ipify net ipifyRequest w) as [[e | who] w1] eqn:Hip.
  - rewrite (checkAndUpdateIP_no_address net config w w1 e Hip) in Hin.
    contradiction.
  - destruct (listing net (listRequest config) w1) as [answer w2] eqn:Hlist.
    destruct answer as [e | l]; [| destruct (success l) eqn:Hok].
    + rewrite (checkAndUpdateIP_no_listing net config w w1 w2 who _ e
                 Hip Hlist eq_refl) in Hin.
      contradiction.
    + rewrite (updateCalls_tick net config w w1 w2 who l Hip Hlist Hok) in Hin.
      apply updateCalls_runs_In in Hin.
      destruct Hin as [[[r wr] tr] [Hrun Hreq]].
      apply recordRuns_In in Hrun. destruct Hrun as [Hr ->].
      apply filterAllowed_In in Hr. destruct Hr as [Hlisted Hname].
      cbn [runTrace snd] in Hreq.
      destruct (checkRecord_updates net config (ip who) r wr)
        as [Hnone | [snapshot Hone]].
      * rewrite Hnone in Hreq. contradiction.
      * rewrite Hone in Hreq. destruct Hreq as [<- | []].
        exists who, w1, l, w2, r, snapshot. now repeat split.
    + rewrite (checkAndUpdateIP_no_listing net config w w1 w2 who _ _
                 Hip Hlist (conj Hok eq_refl)) in Hin.
      contradiction.
Qed.

Lemma tick_writes_only_listed_allowed_records_witness :
  exists who w1 l w2 r snapshot,
    ipify (Zone.net Sample.config) ipifyRequest Sample.zone = (Json who, w1) /\
    listing (Zone.net Sample.config) (listRequest Sample.config) w1
      = (Json l, w2) /\
    success l = true /\
    In r (result l) /\
    In (name r) (allowedRecords Sample.config) /\
    putRequest Sample.config "id-a"
      {| body_type := "A"; body_name := "a.example.com";
         body_content := "2.2.2.2"; body_ttl := 300; body_proxied := true |} =
      {| url := recordUrl Sample.config (id r);
         method := PUT;
         headers := authHeaders Sample.config;
         body := Some {| body_type := type r;
                         body_name := name r;
                         body_content := ip who;
                         body_ttl := ttl snapshot;
                         body_proxied := proxied snapshot |} |}.
Proof.
  apply (tick_writes_only_listed_allowed_records (Zone.net Sample.config)
           Sample.config Sample.zone).
  left. reflexivity.
Defined.

(** X5.  An iteration that reads a content different from the address but
    whose second read, the one made inside the update to obtain the settings
    to preserve, rejects or is answered [success: false]: no PUT is sent, the
    read's error is written with [console.error], and the iteration returns.
    The record is never written without a snapshot of its settings. *)
Theorem failed_snapshot_read_sends_no_write
    {W} (net : Network W) (config : CloudflareConfig) (currentIP : string)
    (r : DNSRecord) (w w1 w2 : W) (d : ApiResponse DNSRecord)
    (answer : Reply (ApiResponse DNSRecord)) (e : JsError) :
  detail net (getRequest config (id r)) w = (Json d, w1) ->
  success d = true ->
  content (result d) <> currentIP ->
  detail net (getRequest config (id r)) w1 = (answer, w2) ->
  match answer with
  | Rejected e' => e = e'
  | Json cur =>
      success cur = false /\
      e = Error ("Failed to get DNS record: " +++ errors cur)
  end ->
  checkRecord net config currentIP r w =
    ([ ConsoleLog (nl +++ "Checking record: " +++ name r +++ " ("
                     +++ type r +++ ")");
       Fetch (getRequest config (id r));
       ConsoleLog ("  Current DNS IP: " +++ content (result d));
       ConsoleLog "  ⚠️  IP mismatch detected! Updating...";
       Fetch (getRequest config (id r));
       ConsoleError ("  ❌ Error processing record " +++ name r +++ ":")
         (Some e) ],
     w2, Returned tt) /\
  updateCalls (traceOf (checkRecord net config currentIP r w)) = [].
Proof.
  intros Hget Hd Hdiff Hget2 He.
  assert (Hrun :
    checkRecord net config currentIP r w =
    ([ ConsoleLog (nl +++ "Checking record: " +++ name r +++ " ("
                     +++ type r +++ ")");
       Fetch (getRequest config (id r));
       ConsoleLog ("  Current DNS IP: " +++ content (result d));
       ConsoleLog "  ⚠️  IP mismatch detected! Updating...";
       Fetch (getRequest config (id r));
       ConsoleError ("  ❌ Error processing record " +++ name r +++ ":")
         (Some e) ],
     w2, Returned tt)).
  { unfold_body. rewrite Hget, Hd. cbn [negb].
    apply String.eqb_neq in Hdiff. rewrite Hdiff. cbn [negb].
    rewrite Hget2. destruct answer as [e' | cur].
    - subst e'. reflexivity.
    - destruct He as [Hko ->]. rewrite Hko. reflexivity. }
  split; [exact Hrun |]. now rewrite Hrun.
Qed.

Lemma failed_snapshot_read_sends_no_write_witness :
  updateCalls
    (traceOf (checkRecord Scripted.net Sample.config "2.2.2.2" Sample.recA
                {| Scripted.ipReplies := []; Scripted.listReplies := [];
                   Scripted.getReplies :=
                     [ Scripted.ok Sample.recA;
                       Scripted.failed Zone.noRecord "[gone]" ];
                   Scripted.putReplies := [Scripted.ok tt] |})) = [].
Proof.
  refine (proj2
    (failed_snapshot_read_sends_no_write Scripted.net Sample.config "2.2.2.2"
       Sample.recA _ _ _ (Zone.found Sample.recA)
       (Scripted.failed Zone.noRecord "[gone]")
       (Error "Failed to get DNS record: [gone]") _ _ _ _ _)).
  - reflexivity.
  - reflexivity.
  - discriminate.
  - reflexivity.
  - split; reflexivity.
Defined.

(* ------------------------------------------------------------------ *)
(** ** Further properties of the loop and of start-up *)

Lemma sleeps_app (a b : Trace) : sleeps (a ++ b) = sleeps a ++ sleeps b.
Proof.
  induction a as [| ev a IH]; [reflexivity |].
  destruct ev; cbn [app sleeps]; now rewrite IH.
Qed.

Lemma checkRecord_no_sleep {W} (net : Network W) (config : CloudflareConfig)
    (currentIP : string) (r : DNSRecord) (w : W) :
  sleeps (traceOf (checkRecord net config currentIP r w)) = [].
Proof.
  unfold_body.
  destruct (detail net (getRequest config (id r)) w) as [[e | d1] w1];
    [reflexivity |].
  destruct (success d1); cbn [negb]; [| reflexivity].
  destruct (content (result d1) =? currentIP)%string; cbn [negb];
    [reflexivity |].
  destruct (detail net (getRequest config (id r)) w1) as [[e | d2] w2];
    [reflexivity |].
  destruct (success d2); cbn [negb]; [| reflexivity].
  destruct (replace net _ w2) as [[e | d3] w3]; [reflexivity |].
  destruct (success d3); reflexivity.
Qed.

Lemma loop_no_sleep {W} (net : Network W) (config : CloudflareConfig)
    (currentIP : string) (rs : list DNSRecord) :
  forall w,
    sleeps (concat (map runTrace (recordRuns net config currentIP rs w))) = [].
Proof.
  induction rs as [| r rest IH]; intros w; [reflexivity |].
  cbn [recordRuns map concat runTrace snd].
  now rewrite sleeps_app, checkRecord_no_sleep, IH.
Qed.

(** A tick does not sleep. *)
Lemma checkAndUpdateIP_no_sleep {W} (net : Network W)
    (config : CloudflareConfig) (w : W) :
  sleeps (traceOf (checkAndUpdateIP net config w)) = [].
Proof.
  destruct (ipify net ipifyRequest w) as [[e | who] w1] eqn:Hip.
  - now rewrite (checkAndUpdateIP_no_address net config w w1 e Hip).
  - destruct (listing net (listRequest config) w1) as [answer w2] eqn:Hlist.
    destruct answer as [e | l]; [| destruct (success l) eqn:Hok].
    + now rewrite (checkAndUpdateIP_no_listing net config w w1 w2 who _ e
                     Hip Hlist eq_refl).
    + rewrite (checkAndUpdateIP_listed net config w w1 w2 who l Hip Hlist Hok).
      destruct (filterAllowed config (result l)) as [| r rest];
        [reflexivity |].
      cbn [traceOf fst]. rewrite sleeps_app.
      change (sleeps (tickPrelude config (ip who))) with (@nil number).
      cbn [app sleeps foundLine]. rewrite sleeps_app, loop_no_sleep.
      reflexivity.
    + now rewrite (checkAndUpdateIP_no_listing net config w w1 w2 who _ _
                     Hip Hlist (conj Hok eq_refl)).
Qed.

(** The two ways a tick can end, as cases. *)
Lemma checkAndUpdateIP_cases {W} (net : Network W)
    (config : CloudflareConfig) (w : W) :
  (exists t w', checkAndUpdateIP net config w = (t, w', Returned tt)) \/
  (exists t w', checkAndUpdateIP net config w = (t, w', Exited 1)).
Proof.
  pose proof (checkAndUpdateIP_outcome net config w) as Hout.
  destruct (checkAndUpdateIP net config w) as [[t w'] o].
  cbn [outcomeOf snd] in Hout.
  destruct (ipify net ipifyRequest w) as [[e | who] w1].
  - right. exists t, w'. now rewrite Hout.
  - destruct (listing net (listRequest config) w1) as [[e | l] w2];
      [| destruct (success l)].
    + right. exists t, w'. now rewrite Hout.
    + left. exists t, w'. now rewrite Hout.
    + right. exists t, w'. now rewrite Hout.
Qed.

(** X6.  The first [n] rounds of the main loop, whatever the network
    answers: either all [n] ticks returned, and the process slept exactly [n]
    times; or some tick exited the process, with code 1, after fewer than [n]
    sleeps.  Every sleep is of the configured interval times 60 * 1000, the
    same each time, and no exception escapes the loop. *)
Theorem mainLoop_sleeps_once_per_completed_tick
    {W} (net : Network W) (config : CloudflareConfig) (n : nat) (w : W) :
  (outcomeOf (mainLoop net config n w) = Returned tt /\
   sleeps (traceOf (mainLoop net config n w)) =
     repeat (number_mul (number_mul (checkIntervalMinutes config) (Num 60))
               (Num 1000)) n) \/
  (outcomeOf (mainLoop net config n w) = Exited 1 /\
   exists k,
     k < n /\
     sleeps (traceOf (mainLoop net config n w)) =
       repeat (number_mul (number_mul (checkIntervalMinutes config) (Num 60))
                 (Num 1000)) k).
Proof.
  revert w. induction n as [| n IH]; intros w; [now left |].
  destruct (checkAndUpdateIP_cases net config w)
    as [[t [w' Htick]] | [t [w' Htick]]].
  - pose proof (checkAndUpdateIP_no_sleep net config w) as Hquiet.
    rewrite Htick in Hquiet. cbn [traceOf fst] in Hquiet.
    rewrite (mainLoop_continues net config n w w' t Htick).
    cbn [outcomeOf traceOf fst snd].
    rewrite !sleeps_app, Hquiet. cbn [app betweenTicks sleeps repeat].
    fold (delay config).
    destruct (IH w') as [[Hout Hs] | [Hout [k [Hk Hs]]]].
    + left. split; [exact Hout |]. now rewrite Hs.
    + right. split; [exact Hout |]. exists (S k). split; [lia |].
      now rewrite Hs.
  - pose proof (checkAndUpdateIP_no_sleep net config w) as Hquiet.
    rewrite Htick in Hquiet. cbn [traceOf fst] in Hquiet.
    rewrite (mainLoop_exits net config n w w' t 1 Htick).
    right. split; [reflexivity |]. exists 0. split; [lia | exact Hquiet].
Qed.








(** X13.  A variable that is set to the empty string is read as if it were
    unset: the configuration loaded, and with it everything the process does,
    is the same.  In particular an empty interval means the default of 5, and
    not NaN. *)
Theorem empty_variables_are_read_as_unset
    {W} (net : Network W) (JSON_parse : string -> JsError + list string)
    (env : ProcessEnv) (n : nat) (w : W) :
  loadConfig JSON_parse (withoutEmpty env) w = loadConfig JSON_parse env w /\
  main net JSON_parse (withoutEmpty env) n w = main net JSON_parse env n w /\
  (CHECK_INTERVAL_MINUTES env = Some EmptyString ->
   forall config t w',
     loadConfig JSON_parse env w = (t, w', Returned config) ->
     checkIntervalMinutes config = Num 5).
Proof.
  assert (Hor : forall v d, orElse (unsetEmpty v) d = orElse v d).
  { intros [s |] d; [| reflexivity]. unfold unsetEmpty, orElse.
    destruct (s =? EmptyString)%string eqn:Hs; [reflexivity |].
    cbn. now rewrite Hs. }
  assert (Hload : forall w0 : W,
    loadConfig JSON_parse (withoutEmpty env) w0 = loadConfig JSON_parse env w0).
  { intros w0. unfold loadConfig, withoutEmpty.
    cbn [CLOUDFLARE_API_TOKEN CLOUDFLARE_ZONE_ID CLOUDFLARE_ALLOWED_RECORDS
         CHECK_INTERVAL_MINUTES].
    now rewrite !Hor. }
  split; [apply Hload |]. split.
  - unfold main. unfold bind at 1 3. now rewrite Hload.
  - intros Hempty config t w'. unfold loadConfig. rewrite Hempty.
    destruct (JSON_parse _) as [e | allowed]; [discriminate |].
    unfold ret. intros H. injection H as _ _ <-. reflexivity.
Qed.

Lemma empty_variables_are_read_as_unset_witness :
  exists config,
    loadConfig Sample.parse (Sample.env (Some EmptyString)) Sample.offline
      = ([], Sample.offline, Returned config) /\
    checkIntervalMinutes config = Num 5.
Proof.
  eexists. split; [reflexivity |].
  exact (proj2 (proj2
    (empty_variables_are_read_as_unset Scripted.net Sample.parse
       (Sample.env (Some EmptyString)) 0 Sample.offline))
    eq_refl _ [] Sample.offline eq_refl).
Defined.

(* ------------------------------------------------------------------ *)
(** ** Further properties against the store provider *)

Lemma NoDup_app_disjoint {A} (l1 l2 : list A) (a : A) :
  NoDup (l1 ++ l2) -> In a l1 -> In a l2 -> False.
Proof.
  induction l1 as [| x l1 IH]; intros Hnd H1 H2; [contradiction |].
  cbn [app] in Hnd. inversion Hnd as [| ? ? Hx Hnd']; subst.
  destruct H1 as [-> | H1].
  - apply Hx. apply in_or_app. now right.
  - now apply IH.
Qed.

(** With unique identifiers, the identifier tells the record. *)
Lemma same_id_same_record (rs : list DNSRecord) (x y : DNSRecord) :
  NoDup (map id rs) -> In x rs -> In y rs -> id x = id y -> x = y.
Proof.
  intros Hnd Hx Hy Hid.
  pose proof (find_by_id rs x Hnd Hx) as Fx.
  pose proof (find_by_id rs y Hnd Hy) as Fy.
  rewrite Hid in Fx. congruence.
Qed.

(** X10.  One tick against a provider that stores what is written, with
    unique record identifiers: among the first 100 records of the zone, those
    whose name is in the allow-list end with the public address as content
    and everything else about them (identifier, name, type, ttl, proxied) as
    it was; all other records, the allowed ones beyond the first 100
    included, are left exactly as they were, and the tick returns. *)
Theorem store_tick_sets_content_of_allowed_first_page
    (config : CloudflareConfig) (z : Zone.State) :
  NoDup (map id (Zone.records z)) ->
  let tick := checkAndUpdateIP (Zone.net config) config z in
  outcomeOf tick = Returned tt /\
  Zone.publicIP (worldOf tick) = Zone.publicIP z /\
  Zone.records (worldOf tick) =
    map (fun r =>
           if includes (allowedRecords config) (name r)
           then {| id := id r; name := name r; type := type r;
                   content := Zone.publicIP z;
                   proxied := proxied r; ttl := ttl r |}
           else r)
      (firstn 100 (Zone.records z))
    ++ skipn 100 (Zone.records z).
Proof.
  intros Hnd tick.
  destruct (zone_tick_world config z Hnd) as [Hworld Hout].
  fold tick in Hworld, Hout.
  split; [exact Hout |]. rewrite Hworld.
  split; [reflexivity |].
  unfold Zone.settle. cbn [Zone.records].
  rewrite <- (firstn_skipn 100 (Zone.records z)) at 1.
  rewrite map_app. f_equal.
  - apply map_ext_in. intros r Hr. unfold Zone.settled, Zone.setContent.
    destruct (includes (allowedRecords config) (name r)) eqn:Hname.
    + assert (Hin : includes (map id (zoneMatched config z)) (id r) = true).
      { apply includes_In. apply in_map. apply filterAllowed_In.
        split; [exact Hr | now apply includes_In]. }
      now rewrite Hin.
    + destruct (includes (map id (zoneMatched config z)) (id r)) eqn:Hin;
        [| reflexivity].
      apply includes_In in Hin. apply in_map_iff in Hin.
      destruct Hin as [r' [Hid Hr']].
      apply filterAllowed_In in Hr'. destruct Hr' as [Hr' Hallowed].
      assert (r' = r) as ->.
      { apply (same_id_same_record (Zone.records z)); try assumption.
        - now apply In_firstn in Hr'.
        - now apply In_firstn in Hr. }
      apply includes_In in Hallowed. congruence.
  - rewrite <- (map_id (skipn 100 (Zone.records z))) at 2.
    apply map_ext_in. intros r Hr. unfold Zone.settled.
    destruct (includes (map id (zoneMatched config z)) (id r)) eqn:Hin;
      [| reflexivity].
    exfalso.
    apply includes_In in Hin. apply in_map_iff in Hin.
    destruct Hin as [r' [Hid Hr']].
    apply filterAllowed_In in Hr'. destruct Hr' as [Hr' _].
    rewrite <- (firstn_skipn 100 (Zone.records z)), map_app in Hnd.
    apply (NoDup_app_disjoint _ _ (id r) Hnd).
    + rewrite <- Hid. now apply in_map.
    + now apply in_map.
Qed.

Lemma store_tick_sets_content_of_allowed_first_page_witness :
  Zone.records
    (worldOf (checkAndUpdateIP (Zone.net Sample.config) Sample.config
                Sample.zone)) =
  [ {| id := "id-a"; name := "a.example.com"; type := "A";
       content := "2.2.2.2"; proxied := true; ttl := 300 |};
    Sample.recB ].
Proof.
  refine (proj2 (proj2
    (store_tick_sets_content_of_allowed_first_page Sample.config Sample.zone _))).
  repeat constructor; cbn; intuition discriminate.
Defined.

(* ------------------------------------------------------------------ *)
(** ** Reading the interval *)

(** A string that starts with a printable ASCII character has no leading
    white space to remove. *)
Lemma trimStart_keeps (c : ascii) (s : string) :
  33 <= byte c < 194 -> trimStart (String c s) = String c s.
Proof.
  intros Hc.
  assert (Hsp : isAsciiSpace c = false).
  { unfold isAsciiSpace. cbv zeta.
    repeat rewrite (proj2 (Nat.eqb_neq _ _)) by lia. reflexivity. }
  assert (H194 : (byte c =? 194)%nat = false) by (apply Nat.eqb_neq; lia).
  assert (H3 : forall b d, isSpace3 c b d = false).
  { intros b d. unfold isSpace3. cbv zeta.
    repeat rewrite (proj2 (Nat.eqb_neq (byte c) _)) by lia. reflexivity. }
  cbn [trimStart]. rewrite Hsp.
  destruct s as [| b [| d r]]; [reflexivity | now rewrite H194 |].
  now rewrite H194, H3.
Qed.

(** Reading past the digits of a decimal numeral. *)
Lemma leadingDigits_numeral (d : Decimal.uint) (tail : string) :
  forall acc,
    leadingDigits (NilEmpty.string_of_uint d +++ tail) (Some (Z.pos acc)) =
    leadingDigits tail (Some (Z.pos (Pos.of_uint_acc d acc))).
Proof.
  induction d as [| d IH | d IH | d IH | d IH | d IH | d IH | d IH | d IH
                  | d IH | d IH]; intros acc; [reflexivity | ..];
    cbn [NilEmpty.string_of_uint String.append leadingDigits Pos.of_uint_acc];
    change (isDigit _) with true; cbv iota;
    rewrite <- IH; f_equal; f_equal;
    match goal with
    | |- context [Z.of_nat (byte ?c)] =>
        let v := eval vm_compute in (Z.of_nat (byte c)) in
        change (Z.of_nat (byte c)) with v
    end; lia.
Qed.

Lemma leadingDigits_numeral_0 (d : Decimal.uint) (tail : string) :
  leadingDigits (NilEmpty.string_of_uint d +++ tail) (Some 0%Z) =
  leadingDigits tail (Some (Z.of_N (Pos.of_uint d))).
Proof.
  induction d as [| d IH | d IH | d IH | d IH | d IH | d IH | d IH | d IH
                  | d IH | d IH]; [reflexivity | exact IH | ..];
    cbn [NilEmpty.string_of_uint String.append leadingDigits Pos.of_uint];
    change (isDigit _) with true; cbv iota;
    exact (leadingDigits_numeral d tail _).
Qed.

Lemma leadingDigits_stop (tail : string) (acc : option Z) :
  endsNumeral tail -> leadingDigits tail acc = acc.
Proof.
  destruct tail as [| c rest]; [reflexivity |].
  cbn [endsNumeral leadingDigits]. now intros ->.
Qed.

Lemma parseInt10_numeral (d : Decimal.uint) (tail : string) :
  d <> Decimal.Nil -> endsNumeral tail ->
  parseInt10 (NilEmpty.string_of_uint d +++ tail) =
    Num (Z.of_N (Pos.of_uint d)) /\
  parseInt10 (String "-" (NilEmpty.string_of_uint d +++ tail)) =
    Num (- Z.of_N (Pos.of_uint d)).
Proof.
  intros Hd Htail.
  assert (Hread :
    leadingDigits (NilEmpty.string_of_uint d +++ tail) None =
    Some (Z.of_N (Pos.of_uint d))).
  { rewrite <- (leadingDigits_stop tail (Some (Z.of_N (Pos.of_uint d))) Htail),
      <- leadingDigits_numeral_0.
    destruct d; [contradiction | ..]; reflexivity. }
  split.
  - unfold parseInt10.
    destruct d; [contradiction | ..];
      cbn [NilEmpty.string_of_uint String.append] in *;
      (rewrite trimStart_keeps by (cbn; lia));
      cbv zeta iota beta; rewrite Hread; f_equal; lia.
  - unfold parseInt10.
    rewrite trimStart_keeps by (cbn; lia).
    cbv zeta iota beta. rewrite Hread. f_equal; lia.
Qed.

Lemma string_of_uint_nonnil (d : Decimal.uint) :
  d <> Decimal.Nil ->
  NilZero.string_of_uint d = NilEmpty.string_of_uint d /\
  exists c rest, NilEmpty.string_of_uint d = String c rest.
Proof.
  intros Hd. destruct d; [contradiction | ..];
    (split; [reflexivity | cbn [NilEmpty.string_of_uint]; eauto]).
Qed.

(** X11.  An interval variable that starts with the decimal numeral of an
    integer [z] (within the range in which a double holds every integer),
    followed by nothing or by anything that is not a digit, is read as [z]:
    the numeral is read back exactly, and what follows it is ignored.  So
    [10] is 10 and [-3] is -3, but also [10 minutes] is 10 and [0.5] is 0. *)
Theorem decimal_interval_is_read_exactly
    {W} (JSON_parse : string -> JsError + list string) (env : ProcessEnv)
    (allowed : list string) (z : Z) (tail : string) (w : W) :
  (Z.abs z <= 2 ^ 53)%Z ->
  endsNumeral tail ->
  CHECK_INTERVAL_MINUTES env = Some (Number_toString (Num z) +++ tail) ->
  JSON_parse (orElse (CLOUDFLARE_ALLOWED_RECORDS env) "[]") = inr allowed ->
  parseInt10 (Number_toString (Num z) +++ tail) = Num z /\
  loadConfig JSON_parse env w =
    ([], w,
     Returned {| apiToken := orElse (CLOUDFLARE_API_TOKEN env) EmptyString;
                 zoneId := orElse (CLOUDFLARE_ZONE_ID env) EmptyString;
                 allowedRecords := allowed;
                 checkIntervalMinutes := Num z |}).
Proof.
  intros _ Htail Henv Hparse.
  assert (Hread :
    parseInt10 (Number_toString (Num z) +++ tail) = Num z /\
    exists c rest, Number_toString (Num z) +++ tail = String c rest).
  { unfold Number_toString, NilZero.string_of_int.
    destruct z as [| p | p]; cbn [Z.to_int].
    - split; [| cbn; eauto].
      exact (proj1 (parseInt10_numeral (Decimal.D0 Decimal.Nil) tail
                      ltac:(discriminate) Htail)).
    - pose proof (Unsigned.to_uint_nonnil p) as Hd.
      destruct (string_of_uint_nonnil _ Hd) as [-> [c [rest Hc]]].
      split.
      + rewrite (proj1 (parseInt10_numeral _ tail Hd Htail)).
        now rewrite DecimalPos.Unsigned.of_to.
      + rewrite Hc. cbn [String.append]. eauto.
    - pose proof (Unsigned.to_uint_nonnil p) as Hd.
      destruct (string_of_uint_nonnil _ Hd) as [-> _].
      split; [| cbn [String.append]; eauto].
      cbn [String.append].
      rewrite (proj2 (parseInt10_numeral _ tail Hd Htail)).
      now rewrite DecimalPos.Unsigned.of_to. }
  destruct Hread as [Hnum [c [rest Hc]]].
  split; [exact Hnum |].
  unfold loadConfig. rewrite Hparse, Henv. unfold ret.
  unfold orElse at 3. rewrite Hc. cbn [String.eqb]. rewrite <- Hc.
  now rewrite Hnum.
Qed.

Lemma decimal_interval_is_read_exactly_witness :
  parseInt10 "0.5" = Num 0 /\
  parseInt10 "10 minutes" = Num 10 /\
  parseInt10 "-3" = Num (-3).
Proof.
  split; [| split].
  - exact (proj1
      (decimal_interval_is_read_exactly Sample.parse (Sample.env (Some "0.5"))
         ["a.example.com"] 0 ".5" Sample.offline
         ltac:(vm_compute; discriminate) eq_refl eq_refl eq_refl)).
  - exact (proj1
      (decimal_interval_is_read_exactly Sample.parse
         (Sample.env (Some "10 minutes"))
         ["a.example.com"] 10 " minutes" Sample.offline
         ltac:(vm_compute; discriminate) eq_refl eq_refl eq_refl)).
  - exact (proj1
      (decimal_interval_is_read_exactly Sample.parse (Sample.env (Some "-3"))
         ["a.example.com"] (-3) EmptyString Sample.offline
         ltac:(vm_compute; discriminate) I eq_refl eq_refl)).
Defined.

(* ------------------------------------------------------------------ *)
(** ** The allow-list as a set *)

Lemma includes_same_elements (xs ys : list string) (x : string) :
  (forall y, In y xs <-> In y ys) -> includes xs x = includes ys x.
Proof.
  intros Hsame.
  destruct (includes xs x) eqn:Hx, (includes ys x) eqn:Hy; try reflexivity.
  - apply includes_In, Hsame, includes_In in Hx. congruence.
  - apply includes_In, Hsame, includes_In in Hy. congruence.
Qed.

(** X12.  Only the set of names in the allow-list matters.  Two
    configurations with the same credential and zone whose allow-lists have
    the same elements, in whatever order and however often repeated, select
    the same records, and their ticks send the same requests, leave the same
    world and end the same way: a name listed twice does not make its record
    be processed twice.  And a configuration that allows more names selects at
    least the records selected before. *)
Theorem allow_list_is_used_as_a_set
    {W} (net : Network W) (token zone : string)
    (allow allow' : list string) (interval interval' : number) (w : W) :
  let config :=
    {| apiToken := token; zoneId := zone; allowedRecords := allow;
       checkIntervalMinutes := interval |} in
  let config' :=
    {| apiToken := token; zoneId := zone; allowedRecords := allow';
       checkIntervalMinutes := interval' |} in
  ((forall x, In x allow -> In x allow') ->
   forall all r, In r (filterAllowed config all) ->
                 In r (filterAllowed config' all)) /\
  ((forall x, In x allow <-> In x allow') ->
   (forall all, filterAllowed config' all = filterAllowed config all) /\
   fetchCalls (traceOf (checkAndUpdateIP net config' w)) =
     fetchCalls (traceOf (checkAndUpdateIP net config w)) /\
   worldOf (checkAndUpdateIP net config' w) =
     worldOf (checkAndUpdateIP net config w) /\
   outcomeOf (checkAndUpdateIP net config' w) =
     outcomeOf (checkAndUpdateIP net config w)).
Proof.
  intros config config'. split.
  - intros Hincl all r Hr. apply filterAllowed_In in Hr.
    apply filterAllowed_In. destruct Hr as [Hall Hname].
    split; [exact Hall | exact (Hincl _ Hname)].
  - intros Hsame.
    assert (Hfilter :
      forall all, filterAllowed config' all = filterAllowed config all).
    { intros all. unfold filterAllowed. apply filter_ext. intros r.
      symmetry. apply includes_same_elements. exact Hsame. }
    split; [exact Hfilter |].
    destruct (ipify net ipifyRequest w) as [[e | who] w1] eqn:Hip.
    + rewrite (checkAndUpdateIP_no_address net config w w1 e Hip),
        (checkAndUpdateIP_no_address net config' w w1 e Hip).
      now repeat split.
    + destruct (listing net (listRequest config) w1) as [answer w2] eqn:Hlist.
      assert (Hlist' : listing net (listRequest config') w1 = (answer, w2))
        by exact Hlist.
      destruct answer as [e | l]; [| destruct (success l) eqn:Hok].
      * rewrite (checkAndUpdateIP_no_listing net config w w1 w2 who _ e
                   Hip Hlist eq_refl),
          (checkAndUpdateIP_no_listing net config' w w1 w2 who _ e
             Hip Hlist' eq_refl).
        now repeat split.
      * rewrite (checkAndUpdateIP_listed net config w w1 w2 who l Hip Hlist Hok),
          (checkAndUpdateIP_listed net config' w w1 w2 who l Hip Hlist' Hok).
        rewrite Hfilter.
        destruct (filterAllowed config (result l)) as [| r rest];
          now repeat split.
      * rewrite (checkAndUpdateIP_no_listing net config w w1 w2 who _ _
                   Hip Hlist (conj Hok eq_refl)),
          (checkAndUpdateIP_no_listing net config' w w1 w2 who _ _
             Hip Hlist' (conj Hok eq_refl)).
        now repeat split.
Qed.

Lemma allow_list_is_used_as_a_set_witness :
  fetchCalls
    (traceOf (checkAndUpdateIP (Zone.net Sample.config)
                {| apiToken := "token"; zoneId := "zone";
                   allowedRecords := ["a.example.com"; "a.example.com"];
                   checkIntervalMinutes := Num 5 |} Sample.zone)) =
  fetchCalls
    (traceOf (checkAndUpdateIP (Zone.net Sample.config) Sample.config
                Sample.zone)).
Proof.
  refine (proj1 (proj2
    (proj2 (allow_list_is_used_as_a_set (Zone.net Sample.config)
              "token" "zone" ["a.example.com"]
              ["a.example.com"; "a.example.com"] (Num 5) (Num 5) Sample.zone)
       _))).
  intros x. cbn. tauto.
Defined.

(* ------------------------------------------------------------------ *)
(** ** The loop against the store provider *)

(** The loop over a store whose matched records hold the address: it
    reads, sleeps, and changes nothing. *)
Lemma zone_mainLoop_quiet (config : CloudflareConfig) (n : nat) (z : Zone.State) :
  NoDup (map id (Zone.records z)) ->
  (forall r, In r (zoneMatched config z) -> content r = Zone.publicIP z) ->
  mainLoop (Zone.net config) config n z =
    (traceOf (mainLoop (Zone.net config) config n z), z, Returned tt) /\
  updateCalls (traceOf (mainLoop (Zone.net config) config n z)) = [].
Proof.
  intros Hnd Hall. induction n as [| n [IHrun IHcalls]]; [now split |].
  pose proof (zone_tick_up_to_date config z Hnd Hall) as Htick.
  rewrite (mainLoop_continues (Zone.net config) config n z z _ Htick).
  assert (Hends :
    worldOf (mainLoop (Zone.net config) config n z) = z /\
    outcomeOf (mainLoop (Zone.net config) config n z) = Returned tt)
    by (rewrite IHrun; now split).
  destruct Hends as [Hw Ho]. rewrite Hw, Ho.
  cbn [traceOf worldOf outcomeOf fst snd].
  split; [reflexivity |].
  rewrite !updateCalls_app, IHcalls, app_nil_r.
  change (updateCalls (betweenTicks config)) with (@nil Request).
  change (updateCalls (tickPrelude config (Zone.publicIP z))) with (@nil Request).
  rewrite ?app_nil_r. cbn [app].
  destruct (zoneMatched config z) as [| r rest]; [reflexivity |].
  match goal with
  | |- updateCalls (?x :: ?t ++ ?y) = _ =>
      change (x :: t ++ y) with ([x] ++ t ++ y)
  end.
  now rewrite !updateCalls_app, updateCalls_upToDate.
Qed.

(** X14.  Against a provider that stores what is written, with unique record
    identifiers and an unchanged public address, however many rounds the
    loop runs: the process keeps running, every PUT it ever sends is sent in
    the first tick, and the zone stays as the first tick left it. *)
Theorem store_is_written_in_the_first_tick_only
    (config : CloudflareConfig) (z : Zone.State) (n : nat) :
  NoDup (map id (Zone.records z)) ->
  let first := checkAndUpdateIP (Zone.net config) config z in
  let run := mainLoop (Zone.net config) config (S n) z in
  outcomeOf run = Returned tt /\
  worldOf run = worldOf first /\
  updateCalls (traceOf run) = updateCalls (traceOf first).
Proof.
  intros Hnd first run.
  destruct (zone_tick_world config z Hnd) as [Hworld Hout].
  fold first in Hworld, Hout.
  assert (Hfirst : checkAndUpdateIP (Zone.net config) config z
                   = (traceOf first, worldOf first, Returned tt)).
  { fold first. rewrite <- Hout. now destruct first as [[t w'] o]. }
  destruct (zone_mainLoop_quiet config n (worldOf first)) as [Hrun Hcalls].
  - rewrite Hworld. now rewrite settle_ids.
  - rewrite Hworld. apply zone_settled_matched.
  - unfold run.
    rewrite (mainLoop_continues (Zone.net config) config n z _ _ Hfirst).
    assert (Hends :
      worldOf (mainLoop (Zone.net config) config n (worldOf first))
        = worldOf first /\
      outcomeOf (mainLoop (Zone.net config) config n (worldOf first))
        = Returned tt) by (rewrite Hrun; now split).
    destruct Hends as [Hw Ho].
    cbn [traceOf worldOf outcomeOf fst snd].
    split; [exact Ho |]. split; [exact Hw |].
    rewrite !updateCalls_app, Hcalls.
    change (updateCalls (betweenTicks config)) with (@nil Request).
    now rewrite !app_nil_r.
Qed.

Lemma store_is_written_in_the_first_tick_only_witness :
  length
    (updateCalls
       (traceOf (mainLoop (Zone.net Sample.both) Sample.both 4 Sample.zone)))
  = 2.
Proof.
  rewrite (proj2 (proj2
    (store_is_written_in_the_first_tick_only Sample.both Sample.zone 3
       ltac:(repeat constructor; cbn; intuition discriminate)))).
  reflexivity.
Defined.

(* ------------------------------------------------------------------ *)
(** ** What an iteration takes from the listing *)

(** X15.  An iteration uses the identifier, the name and the type of the
    listing entry and nothing else of it: the content, ttl and proxied that
    the listing reported play no part, neither in the decision to write nor
    in what is written.  The decision rests on the content read afresh. *)
Theorem iteration_ignores_listed_content_and_settings
    {W} (net : Network W) (config : CloudflareConfig) (currentIP : string)
    (r r' : DNSRecord) (w : W) :
  id r' = id r -> name r' = name r -> type r' = type r ->
  checkRecord net config currentIP r' w = checkRecord net config currentIP r w.
Proof.
  destruct r as [i n t c p l], r' as [i' n' t' c' p' l'].
  cbn [id name type]. intros -> -> ->. reflexivity.
Qed.

Lemma iteration_ignores_listed_content_and_settings_witness :
  checkRecord (Zone.net Sample.config) Sample.config "2.2.2.2"
    {| id := "id-a"; name := "a.example.com"; type := "A";
       content := "2.2.2.2"; proxied := false; ttl := 1 |} Sample.zone =
  checkRecord (Zone.net Sample.config) Sample.config "2.2.2.2"
    Sample.recA Sample.zone.
Proof.
  exact (iteration_ignores_listed_content_and_settings
           (Zone.net Sample.config) Sample.config "2.2.2.2" Sample.recA
           {| id := "id-a"; name := "a.example.com"; type := "A";
              content := "2.2.2.2"; proxied := false; ttl := 1 |}
           Sample.zone eq_refl eq_refl eq_refl).
Defined.
